(** * desk-controller: simulated GPIO registry, simulator server and
      Omron D6T frame acquisition

    Shallow embedding of [src/rpi_simulator.py] and
    [src/sensors/omron_d6t/omron_d6t.py].

    - Python [bytes] / [bytearray] values are [list byte]; an element read
      out of one is the integer [byte_val b].
    - Python [int] is [Z]; Python [float] is the kernel's binary64
      [float], and [a / b] on two small integers is the IEEE division of
      their exact conversions.
    - Exceptions are explicit: every operation returns an [Outcome].
    - [print] and [time.sleep] calls have no effect on the modelled state
      and are left out. *)

From Stdlib Require Import ZArith List Lia Bool Floats Uint63.
From Stdlib.Strings Require Import Byte.
Import ListNotations.
Open Scope Z_scope.

(** ** Python values shared by both modules *)

Inductive Exn : Type :=
| KeyError
| IndexError
| ValueError
| AttributeError
| SocketError (errno : Z).

(** [Blocked]: the thread waits for ever on a lock that is already held
    ([threading.Lock] is not re-entrant). *)
Inductive Outcome (A : Type) : Type :=
| Ok (a : A)
| Raise (e : Exn)
| Blocked.
Arguments Ok {A} a.
Arguments Raise {A} e.
Arguments Blocked {A}.

Definition byte_val (b : byte) : Z := Z.of_N (Byte.to_N b).

(** [seq[i]] for a non-negative index. *)
Definition item {A} (l : list A) (i : nat) : option A := nth_error l i.

(** [seq[-1]]: the last element, absent on the empty sequence. *)
Definition last_item {A} (l : list A) : option A :=
  nth_error l (length l - 1).

(** [seq[i] = x] on a Python list: absent (IndexError) out of range. *)
Fixpoint list_assign {A} (l : list A) (i : nat) (x : A) : option (list A) :=
  match l, i with
  | [], _ => None
  | _ :: t, O => Some (x :: t)
  | h :: t, S i' =>
      match list_assign t i' x with
      | Some t' => Some (h :: t')
      | None => None
      end
  end.

(** [range(start, stop, step)] for a positive step. *)
Definition py_range (start stop step : nat) : list nat :=
  map (fun k => (start + k * step)%nat)
      (seq 0 ((stop - start + (step - 1)) / step)).

(** [int / int]: true division of two integers that a binary64 holds
    exactly. *)
Definition float_of_int (z : Z) : float := PrimFloat.of_uint63 (Uint63.of_Z z).
Definition truediv (a b : Z) : float :=
  PrimFloat.div (float_of_int a) (float_of_int b).

(** ** crcmod's predefined 'crc-8'

    [crcmod.predefined.mkCrcFun('crc-8')]: polynomial 0x107, initial value
    0, not reflected, no final xor; most significant bit first. *)
Module Crc8.

Definition shift_bit (c : Z) : Z :=
  if Z.testbit c 7
  then Z.land (Z.lxor (Z.shiftl c 1) 0x07) 0xFF
  else Z.land (Z.shiftl c 1) 0xFF.

Definition update (crc : Z) (b : byte) : Z :=
  Nat.iter 8 shift_bit (Z.lxor crc (byte_val b)).

Definition crc8_func (data : list byte) : Z := fold_left update data 0.

End Crc8.

(** ** sensors/omron_d6t/omron_d6t.py *)
Module OmronD6T.

Definition START_COMMAND : Z := 0x4c.
Definition ARRAY_SIZE : nat := 16.
Definition BUFFER_LENGTH : Z := 35.
Definition PEC_PREFIX : list byte := [x15].
Definition MAX_CELLS_ABOVE_ROOM_TEMPERATURE : Z := 10.

(** A decoded frame: room temperature and the pixel temperatures. *)
Definition Frame : Type := (float * list float)%type.

(** [(hi << 8) | lo] *)
Definition word_of (lo hi : byte) : Z :=
  Z.lor (Z.shiftl (byte_val hi) 8) (byte_val lo).

(** One turn of the [for j in range(2, len - 2, 2)] loop: the state is
    [(cur_pixel, temperature)]. *)
Definition parse_step (raw : list byte)
    (st : Outcome (nat * list float)) (j : nat) : Outcome (nat * list float) :=
  match st with
  | Ok (cur_pixel, temperature) =>
      match item raw (j + 1), item raw j with
      | Some hi, Some lo =>
          match list_assign temperature cur_pixel (truediv (word_of lo hi) 10) with
          | Some temperature' => Ok ((cur_pixel + 1)%nat, temperature')
          | None => Raise IndexError
          end
      | _, _ => Raise IndexError
      end
  | other => other
  end.

Definition __parse_temperature_data (raw_sensor_buffer : list byte)
  : Outcome (option Frame) :=
  if negb (Z.of_nat (length raw_sensor_buffer) =? BUFFER_LENGTH) then Ok None
  else
    match item raw_sensor_buffer 1, item raw_sensor_buffer 0 with
    | Some hi, Some lo =>
        let t := word_of lo hi in
        let room_temperature := truediv t 10 in
        let temperature := repeat 0%float ARRAY_SIZE in
        match fold_left (parse_step raw_sensor_buffer)
                        (py_range 2 (length raw_sensor_buffer - 2) 2)
                        (Ok (O, temperature)) with
        | Ok (_, temperature') => Ok (Some (room_temperature, temperature'))
        | Raise e => Raise e
        | Blocked => Blocked
        end
    | _, _ => Raise IndexError
    end.

Definition __calculate_pec (buf : list byte) : Z :=
  Crc8.crc8_func (PEC_PREFIX ++ buf).

(** [sum(temperature > room_temperature for temperature in temperature_array)] *)
Definition __temperature_cells_above_threshold
    (room_temperature : float) (temperature_array : list float) : Z :=
  fold_left (fun acc (b : bool) => acc + (if b then 1 else 0))
            (map (fun temperature => PrimFloat.ltb room_temperature temperature)
                 temperature_array)
            0.

(** The base class [Sensor] lives in [sensors/sensor.py]; its
    [read_raw_data] and [_MAX_RETRIES] are parameters here.  A bus is any state
    that answers a read with a byte count and a buffer. *)
Section Acquisition.

Variable Bus : Type.
Variable read_raw_data : Bus -> (Z * list byte) * Bus.
Variable MAX_RETRIES : nat.

(** The [for i in range(self._MAX_RETRIES)] loop of [__read], with the
    number of turns left. *)
Fixpoint read_loop (turns : nat) (bus : Bus) : Outcome (option Frame) * Bus :=
  match turns with
  | O => (Ok None, bus)
  | S turns' =>
      let '((bytes_read, sensor_raw_data), bus') := read_raw_data bus in
      if bytes_read =? BUFFER_LENGTH then
        match last_item sensor_raw_data with
        | None => (Raise IndexError, bus')
        | Some crc_expected =>
            let crc_actual := __calculate_pec (removelast sensor_raw_data) in
            if byte_val crc_expected =? crc_actual
            then (__parse_temperature_data sensor_raw_data, bus')
            else read_loop turns' bus'
        end
      else read_loop turns' bus'
  end.

Definition __read (bus : Bus) : Outcome (option Frame) * Bus :=
  read_loop MAX_RETRIES bus.

Definition occupied_status (bus : Bus) : Outcome bool * Bus :=
  match __read bus with
  | (Ok None, bus') => (Ok false, bus')
  | (Ok (Some (room_temperature, temperature_matrix)), bus') =>
      (Ok (MAX_CELLS_ABOVE_ROOM_TEMPERATURE <=?
           __temperature_cells_above_threshold room_temperature temperature_matrix),
       bus')
  | (Raise e, bus') => (Raise e, bus')
  | (Blocked, bus') => (Blocked, bus')
  end.

(** The answers of the first [n] raw reads, and the bus after them. *)
Fixpoint attempts (n : nat) (bus : Bus) : list (Z * list byte) :=
  match n with
  | O => []
  | S n' => let '(r, bus') := read_raw_data bus in r :: attempts n' bus'
  end.

Fixpoint bus_after (n : nat) (bus : Bus) : Bus :=
  match n with
  | O => bus
  | S n' => bus_after n' (snd (read_raw_data bus))
  end.

End Acquisition.

(** *** The frame layout and the acceptance test, in the words of the
    specification; the theorems compare them with the code above. *)

(** The little-endian 16-bit value at offset [off]. *)
Definition le16_at (raw : list byte) (off : nat) : Z :=
  byte_val (nth off raw x00) + 256 * byte_val (nth (off + 1) raw x00).

(** Room temperature from offset 0 and the 16 pixels from offsets
    2, 4, ..., 32, each divided by 10. *)
Definition decode_spec (raw : list byte) : Frame :=
  (truediv (le16_at raw 0) 10,
   map (fun i => truediv (le16_at raw (2 + 2 * i)) 10) (seq 0 16)).

(** A read is a valid frame: 35 bytes counted, 35 bytes held, and the
    CRC-8 of 0x15 followed by the first 34 bytes equal to the last byte. *)
Definition frame_accepted (r : Z * list byte) : bool :=
  (fst r =? 35) && (length (snd r) =? 35)%nat &&
  (Crc8.crc8_func (x15 :: firstn 34 (snd r)) =? byte_val (nth 34 (snd r) x00)).

(** Position and buffer of the first valid frame among some reads. *)
Fixpoint first_accepted (rs : list (Z * list byte)) : option (nat * list byte) :=
  match rs with
  | [] => None
  | r :: rest =>
      if frame_accepted r then Some (O, snd r)
      else
        match first_accepted rest with
        | Some (i, raw) => Some (S i, raw)
        | None => None
        end
  end.

(** The bus collaborator reports the length of the buffer it hands over
    whenever it reports a full frame. *)
Definition count_matches_buffer (r : Z * list byte) : Prop :=
  fst r = BUFFER_LENGTH -> length (snd r) = 35%nat.

(** Number of pixels strictly warmer than the room. *)
Definition count_above (room : float) (pixels : list float) : nat :=
  length (filter (fun t => PrimFloat.ltb room t) pixels).

(** A bus that plays back a fixed list of answers, then reports nothing. *)
Definition scripted_read (script : list (Z * list byte))
  : (Z * list byte) * list (Z * list byte) :=
  match script with
  | [] => ((0, []), [])
  | r :: rest => (r, rest)
  end.

(** Sample frames: a room at 25.0 with [n] pixels at 30.0 and the others
    at 20.0, low byte first, closed by a PEC byte. *)
Definition sample_body (n : nat) : list byte :=
  [xfa; x00] ++ concat (repeat [x2c; x01] n) ++ concat (repeat [xc8; x00] (16 - n)).

Definition sample_frame_10 : list byte := sample_body 10 ++ [x15].

Definition sample_frame_9 : list byte := sample_body 9 ++ [xde].

(** The first sample with a wrong PEC byte. *)
Definition sample_frame_corrupt : list byte := sample_body 10 ++ [xea].

(** A short read, then a frame with a wrong PEC, then a good frame. *)
Definition sample_script : list (Z * list byte) :=
  [(34, sample_body 10);
   (35, sample_frame_corrupt);
   (35, sample_frame_10)].

End OmronD6T.

(** ** rpi_simulator.py *)
Module Simulator.

(** A Python callable handed to [add_event_detect], by identity. *)
Definition Callback : Type := nat.

(** [errno.EAGAIN] *)
Definition EAGAIN : Z := 11.

(** *** The dictionary [_pin_map]

    A Python [dict] keeps insertion order; assigning to a key that is
    present keeps its position, assigning to a new key appends. *)
Definition Dict (V : Type) : Type := list (Z * V).

Fixpoint dict_get {V} (k : Z) (d : Dict V) : option V :=
  match d with
  | [] => None
  | (k', v) :: t => if k =? k' then Some v else dict_get k t
  end.

Definition dict_contains {V} (k : Z) (d : Dict V) : bool :=
  match dict_get k d with Some _ => true | None => false end.

Fixpoint dict_set {V} (k : Z) (v : V) (d : Dict V) : Dict V :=
  match d with
  | [] => [(k, v)]
  | (k', v') :: t => if k =? k' then (k, v) :: t else (k', v') :: dict_set k v t
  end.

Definition dict_keys {V} (d : Dict V) : list Z := map fst d.

(** *** Locks, sockets and the observable events *)
Inductive LockId : Type :=
| PinMapLock        (* _pin_map_lock *)
| ConnLock          (* SimulatorConnection.lock *)
| SyncClientLock.   (* SimulatorConnection.sync_client_lock *)

Inductive Event : Type :=
| EvAcquire (l : LockId)
| EvRelease (l : LockId)
| EvCallback (cb : Callback) (pin : Z)
| EvRecv
| EvSend (data : list byte)
| EvTableRead (pin : Z)
| EvTableWrite (pin : Z) (state : Z) (callback : option Callback)
| EvTableItems.

(** What the next [recv] on the non-blocking client socket does. *)
Inductive RecvOutcome : Type :=
| RecvData (chunk : list byte)
| RecvError (errno : Z).

(** The client socket: the answers its coming [recv] calls get (none left:
    no data available, EAGAIN), what was sent on it, and the error a
    [send] fails with, if any. *)
Record Socket : Type := mkSocket {
  incoming : list RecvOutcome;
  sent : list (list byte);
  send_errno : option Z
}.

(** The module's globals and the fields of the one [SimulatorConnection]
    the module creates. *)
Record World : Type := mkWorld {
  pin_map : Dict (Z * option Callback);
  pin_map_lock : bool;
  simulatorConn : bool;
  clientSocket : option Socket;
  lock : bool;
  sync_client_lock : bool;
  should_sync : bool;
  run_thread : bool;
  trace : list Event
}.

Definition set_pin_map (d : Dict (Z * option Callback)) (w : World) : World :=
  mkWorld d (pin_map_lock w) (simulatorConn w) (clientSocket w) (lock w)
          (sync_client_lock w) (should_sync w) (run_thread w) (trace w).

Definition set_clientSocket (s : option Socket) (w : World) : World :=
  mkWorld (pin_map w) (pin_map_lock w) (simulatorConn w) s (lock w)
          (sync_client_lock w) (should_sync w) (run_thread w) (trace w).

Definition set_should_sync_field (b : bool) (w : World) : World :=
  mkWorld (pin_map w) (pin_map_lock w) (simulatorConn w) (clientSocket w) (lock w)
          (sync_client_lock w) b (run_thread w) (trace w).

Definition set_run_thread (b : bool) (w : World) : World :=
  mkWorld (pin_map w) (pin_map_lock w) (simulatorConn w) (clientSocket w) (lock w)
          (sync_client_lock w) (should_sync w) b (trace w).

Definition log (e : Event) (w : World) : World :=
  mkWorld (pin_map w) (pin_map_lock w) (simulatorConn w) (clientSocket w) (lock w)
          (sync_client_lock w) (should_sync w) (run_thread w) (trace w ++ [e]).

(** The events [evs] noted one after the other. *)
Definition logs (evs : list Event) (w : World) : World :=
  mkWorld (pin_map w) (pin_map_lock w) (simulatorConn w) (clientSocket w) (lock w)
          (sync_client_lock w) (should_sync w) (run_thread w) (trace w ++ evs).

Definition held (l : LockId) (w : World) : bool :=
  match l with
  | PinMapLock => pin_map_lock w
  | ConnLock => lock w
  | SyncClientLock => sync_client_lock w
  end.

Definition set_held (l : LockId) (b : bool) (w : World) : World :=
  match l with
  | PinMapLock =>
      mkWorld (pin_map w) b (simulatorConn w) (clientSocket w) (lock w)
              (sync_client_lock w) (should_sync w) (run_thread w) (trace w)
  | ConnLock =>
      mkWorld (pin_map w) (pin_map_lock w) (simulatorConn w) (clientSocket w) b
              (sync_client_lock w) (should_sync w) (run_thread w) (trace w)
  | SyncClientLock =>
      mkWorld (pin_map w) (pin_map_lock w) (simulatorConn w) (clientSocket w) (lock w)
              b (should_sync w) (run_thread w) (trace w)
  end.

(** *** Commands: a state transformer that may raise or block.  The state
    reached when an exception is raised is kept, as in Python. *)
Definition M (A : Type) : Type := World -> Outcome A * World.

Definition ret {A} (a : A) : M A := fun w => (Ok a, w).

Definition raise {A} (e : Exn) : M A := fun w => (Raise e, w).

Definition bind {A B} (c : M A) (k : A -> M B) : M B := fun w =>
  match c w with
  | (Ok a, w') => k a w'
  | (Raise e, w') => (Raise e, w')
  | (Blocked, w') => (Blocked, w')
  end.

Declare Scope cmd_scope.
Delimit Scope cmd_scope with cmd.
Notation "x <- c ;; k" := (bind c (fun x => k))
  (at level 61, c at next level, right associativity) : cmd_scope.
Notation "c ;; k" := (bind c (fun _ => k))
  (at level 61, right associativity) : cmd_scope.
Local Open Scope cmd_scope.

(** [with l: body].  Entering blocks for ever when [l] is held; the lock
    is released on every way out of the body, an exception included. *)
Definition acquired (l : LockId) (w : World) : World :=
  log (EvAcquire l) (set_held l true w).

Definition released (l : LockId) (w : World) : World :=
  log (EvRelease l) (set_held l false w).

Definition with_lock {A} (l : LockId) (body : M A) : M A := fun w =>
  if held l w then (Blocked, w)
  else
    match body (acquired l w) with
    | (Blocked, w') => (Blocked, w')
    | (r, w') => (r, released l w')
    end.

(** [try: body except socket.error: handler] *)
Definition try_socket_error {A} (body : M A) (handler : Z -> M A) : M A := fun w =>
  match body w with
  | (Raise (SocketError errno), w') => handler errno w'
  | other => other
  end.

(** [bytearray.append(x)]: ValueError unless [x] is in [range(0, 256)]. *)
Definition bytearray_append (b : list byte) (x : Z) : Outcome (list byte) :=
  if (0 <=? x) && (x <? 256) then
    match Byte.of_N (Z.to_N x) with
    | Some y => Ok (b ++ [y])
    | None => Raise ValueError
    end
  else Raise ValueError.

(** [self.clientSocket.send(data)] *)
Definition socket_send (data : list byte) : M unit := fun w =>
  match clientSocket w with
  | None => (Raise AttributeError, w)
  | Some s =>
      match send_errno s with
      | Some errno => (Raise (SocketError errno), w)
      | None =>
          (Ok tt,
           log (EvSend data)
               (set_clientSocket
                  (Some (mkSocket (incoming s) (sent s ++ [data]) (send_errno s))) w))
      end
  end.

(** [self.clientSocket.recv(1024)] on the non-blocking socket. *)
Definition socket_recv : M (list byte) := fun w =>
  match clientSocket w with
  | None => (Raise AttributeError, w)
  | Some s =>
      match incoming s with
      | [] => (Raise (SocketError EAGAIN), log EvRecv w)
      | RecvData chunk :: rest =>
          (Ok chunk,
           log EvRecv (set_clientSocket (Some (mkSocket rest (sent s) (send_errno s))) w))
      | RecvError errno :: rest =>
          (Raise (SocketError errno),
           log EvRecv (set_clientSocket (Some (mkSocket rest (sent s) (send_errno s))) w))
      end
  end.

(** *** class SimulatorConnection: the flags *)
Definition set_should_sync (val : bool) : M unit :=
  with_lock SyncClientLock (fun w => (Ok tt, set_should_sync_field val w)).

Definition should_sync_client : M bool :=
  with_lock SyncClientLock (fun w => (Ok (should_sync w), w)).

Definition can_run_thread : M bool :=
  with_lock ConnLock (fun w => (Ok (run_thread w), w)).

(** *** Accesses to [_pin_map]

    Each access leaves its event in the trace at the moment it happens, so
    that the trace tells whether the lock was held at that moment. *)

(** [pin in _pin_map] *)
Definition table_contains (pin : Z) : M bool := fun w =>
  (Ok (dict_contains pin (pin_map w)), log (EvTableRead pin) w).

(** [_pin_map[pin]]: KeyError when the pin is absent. *)
Definition table_get (pin : Z) : M (Z * option Callback) := fun w =>
  match dict_get pin (pin_map w) with
  | Some entry => (Ok entry, log (EvTableRead pin) w)
  | None => (Raise KeyError, log (EvTableRead pin) w)
  end.

(** [_pin_map[pin] = (state, callback)] *)
Definition table_set (pin : Z) (entry : Z * option Callback) : M unit := fun w =>
  (Ok tt,
   log (EvTableWrite pin (fst entry) (snd entry))
       (set_pin_map (dict_set pin entry (pin_map w)) w)).

(** [_pin_map.items()] *)
Definition table_items : M (Dict (Z * option Callback)) := fun w =>
  (Ok (pin_map w), log EvTableItems w).

(** *** class GPIO *)
Definition GPIO_add_event_detect
    (pin : Z) (rf_type : Z) (callback : option Callback) (bouncetime : Z) : M unit :=
  with_lock PinMapLock (
    entry <- table_get pin ;;
    table_set pin (fst entry, callback)).

Definition GPIO_input (pin : Z) : M (option Z) :=
  with_lock PinMapLock (
    present <- table_contains pin ;;
    if present
    then (entry <- table_get pin ;; ret (Some (fst entry)))
    else ret None).

Definition GPIO_setup (pin : Z) (dir : Z) : M unit :=
  with_lock PinMapLock (table_set pin (0, None)).

(** The critical section of [GPIO.output]: it yields the callback to call
    once the lock is released. *)
Definition output_critical_section (pin value : Z) : M (option Callback) :=
  with_lock PinMapLock (
    present <- table_contains pin ;;
    if present
    then (entry <- table_get pin ;;
          table_set pin (value, snd entry) ;;
          ret (snd entry))
    else ret None).

(** [if simulatorConn: simulatorConn.set_should_sync()] *)
Definition signal_sync : M unit := fun w =>
  if simulatorConn w then set_should_sync true w else (Ok tt, w).

Section WithCallbacks.

(** What running a callable does: any command. *)
Variable callback_body : Callback -> Z -> M unit.

(** [callback(pin)] *)
Definition call (callback : Callback) (pin : Z) : M unit := fun w =>
  callback_body callback pin (log (EvCallback callback pin) w).

Definition GPIO_output (pin value : Z) : M unit :=
  callback <- output_critical_section pin value ;;
  match callback with
  | Some cb => call cb pin
  | None => ret tt
  end ;;
  signal_sync.

(** *** class SimulatorConnection: sync and messages *)

(** The body of [for pin, (state, callback) in _pin_map.items()]. *)
Definition append_triple (send_b : Outcome (list byte))
    (entry : Z * (Z * option Callback)) : Outcome (list byte) :=
  let '(pin, (state, callback)) := entry in
  match send_b with
  | Ok b0 =>
      match bytearray_append b0 0x35 with
      | Ok b1 =>
          match bytearray_append b1 pin with
          | Ok b2 => bytearray_append b2 state
          | other => other
          end
      | other => other
      end
  | other => other
  end.

Definition build_send_b (items : Dict (Z * option Callback)) : M (list byte) :=
  fun w => (fold_left append_triple items (Ok []), w).

Definition sync_with_client : M unit :=
  with_lock PinMapLock (
    items <- table_items ;;
    send_b <- build_send_b items ;;
    socket_send send_b ;;
    set_should_sync false).

Definition process_message (chunk : list byte) : M unit :=
  if (length chunk <? 1)%nat || (3 <? length chunk)%nat then ret tt
  else
    match item chunk 0 with
    | None => raise IndexError
    | Some cmd_num =>
        if byte_val cmd_num =? 0x35 then
          match item chunk 1 with
          | None => raise IndexError
          | Some arg_1 =>
              match item chunk 2 with
              | None => raise IndexError
              | Some arg_2 => GPIO_output (byte_val arg_1) (byte_val arg_2)
              end
          end
        else if byte_val cmd_num =? 0x10 then sync_with_client
        else ret tt
    end.

(** One turn of the [while self.can_run_thread()] loop of
    [server_run_thread], after the test of the flag. *)
Definition receive_turn : M unit :=
  try_socket_error
    (chunk <- socket_recv ;;
     process_message chunk ;;
     needs <- should_sync_client ;;
     if needs then sync_with_client else ret tt)
    (fun errno => ret tt).

(** The loop itself, cut after [turns] turns: whether it ends is decided
    by the other thread, which clears [run_thread]. *)
Fixpoint receive_loop (turns : nat) : M unit :=
  match turns with
  | O => ret tt
  | S turns' =>
      go <- can_run_thread ;;
      if go then receive_turn ;; receive_loop turns' else ret tt
  end.

End WithCallbacks.

(** *** Properties of traces and tables that the theorems speak about *)



(** The accesses that [GPIO.input] makes: the membership test, and the
    lookup when the pin is there. *)
Definition input_accesses (pin : Z) (d : Dict (Z * option Callback)) : list Event :=
  if dict_contains pin d then [EvTableRead pin; EvTableRead pin]
  else [EvTableRead pin].



(** The full-sync message in the words of the specification: one
    [0x35 <pin> <value>] triple per entry, in table order. *)
Definition snapshot (d : Dict (Z * option Callback)) : list Z :=
  flat_map (fun entry => [0x35; fst entry; fst (snd entry)]) d.

(** Every pin id and every value of the table fits a byte. *)
Definition table_fits_bytes (d : Dict (Z * option Callback)) : Prop :=
  Forall (fun entry => 0 <= fst entry < 256 /\ 0 <= fst (snd entry) < 256) d.


(** Every turn of the receive loop that starts with a client connected
    and a sync owed sends one more message and clears the flag. *)
Definition pushes_whenever_sync_owed (callback_body : Callback -> Z -> M unit) : Prop :=
  forall w sock,
    clientSocket w = Some sock -> send_errno sock = None ->
    pin_map_lock w = false -> sync_client_lock w = false ->
    table_fits_bytes (pin_map w) ->
    should_sync w = true ->
    should_sync (snd (receive_turn callback_body w)) = false /\
    exists sock' msg,
      clientSocket (snd (receive_turn callback_body w)) = Some sock' /\
      sent sock' = sent sock ++ [msg].

(** The world right after a [recv] that returned a chunk. *)
Definition after_recv (sock : Socket) (rest : list RecvOutcome) (w : World) : World :=
  log EvRecv (set_clientSocket (Some (mkSocket rest (sent sock) (send_errno sock))) w).

(** *** Sample worlds *)

(** A callback that reads back the pin it is called for. *)
Definition reading_callback (cb : Callback) (pin : Z) : M unit :=
  GPIO_input pin ;; ret tt.

(** Nothing set up, no client. *)
Definition fresh_world : World :=
  mkWorld [] false true None false false false true [].

(** Two pins set up, the first with a callback; a client is connected and
    has nothing to say; a sync is owed. *)
Definition connected_world : World :=
  mkWorld [(5, (0, Some 1%nat)); (7, (1, None))] false true
          (Some (mkSocket [] [] None)) false false true true [].

(** The same with no sync owed: the client has been told everything. *)
Definition listening_world : World :=
  mkWorld [(5, (0, Some 1%nat)); (7, (1, None))] false true
          (Some (mkSocket [] [] None)) false false false true [].

(** The sample world with one message waiting on the socket. *)
Definition world_with_message (chunk : list byte) : World :=
  set_clientSocket (Some (mkSocket [RecvData chunk] [] None)) connected_world.

End Simulator.

(** ** desk_pin_table.py *)
Module DeskPinTable.

(** The configuration, the class [Desk] and the bus behind the sensors
    live outside this file: [CONFIG.desks] is an argument, [Desk(name, id)]
    and [Desk.input_received] are parameters, the latter acting on
    whatever the desks keep, and a sensor is the pair of bus number and
    address that [OmronD6T(bus, address)] is built from. *)
Section Desks.

Variable DeskId : Type.
Variable id_eqb : DeskId -> DeskId -> bool.
Variable Name : Type.
Variable Desk : Type.
Variable Desk_new : Name -> DeskId -> Desk.
Variable Env : Type.
Variable input_received : Desk -> bool -> Env -> Env.
Variable Bus : Type.
Variable read_raw_data : Z * Z -> Bus -> (Z * list byte) * Bus.
Variable MAX_RETRIES : nat.

Record SensorConfig : Type := mkSensorConfig {
  i2c_bus : Z;
  i2c_address : Z
}.

Record DeskConfig : Type := mkDeskConfig {
  id : DeskId;
  name : Name;
  sensor : SensorConfig
}.

(** An entry of [__desk_mapping]: desk id, sensor object, desk object. *)
Definition Entry : Type := (DeskId * (Z * Z) * Desk)%type.

(** [__load_desk_dictionary]: [__desk_mapping] is an attribute of the
    class, so that every [DeskPinTable()] appends to the one list. *)
Definition __load_desk_dictionary
    (all_desks : list DeskConfig) (desk_mapping : list Entry) : list Entry :=
  fold_left
    (fun mapping d =>
       let d_sensor := sensor d in
       let sensor_obj := (i2c_bus d_sensor, i2c_address d_sensor) in
       mapping ++ [(id d, sensor_obj, Desk_new (name d) (id d))])
    all_desks desk_mapping.

(** The entry appended for one configured desk. *)
Definition entry_for (d : DeskConfig) : Entry :=
  (id d, (i2c_bus (sensor d), i2c_address (sensor d)), Desk_new (name d) (id d)).

(** [poll_loop]: an exception of a sensor leaves the loop. *)
Fixpoint poll_loop (desk_mapping : list Entry) (bus : Bus) (env : Env)
  : Outcome unit * (Bus * Env) :=
  match desk_mapping with
  | [] => (Ok tt, (bus, env))
  | (desk_id, sensor_obj, desk_obj) :: rest =>
      match OmronD6T.occupied_status Bus (read_raw_data sensor_obj) MAX_RETRIES bus with
      | (Ok status, bus') => poll_loop rest bus' (input_received desk_obj status env)
      | (Raise e, bus') => (Raise e, (bus', env))
      | (Blocked, bus') => (Blocked, (bus', env))
      end
  end.

(** [next((pin, d_obj) for d_id, pin, d_obj in mapping if d_id == desk_id), None)] *)
Definition get_mapping_from_desk_id
    (desk_id : DeskId) (desk_mapping : list Entry) : option ((Z * Z) * Desk) :=
  match find (fun entry => id_eqb (fst (fst entry)) desk_id) desk_mapping with
  | Some (d_id, pin, d_obj) => Some (pin, d_obj)
  | None => None
  end.

End Desks.

Arguments id {DeskId Name} d.
Arguments name {DeskId Name} d.
Arguments sensor {DeskId Name} d.
Arguments entry_for {DeskId Name Desk} Desk_new d.
Arguments __load_desk_dictionary {DeskId Name Desk} Desk_new all_desks desk_mapping.
Arguments poll_loop {DeskId Desk Env} input_received {Bus} read_raw_data
  MAX_RETRIES desk_mapping bus env.
Arguments get_mapping_from_desk_id {DeskId} id_eqb {Desk} desk_id desk_mapping.

(** A bus on which no sensor ever answers with a full frame. *)
Definition dead_read (sensor_obj : Z * Z) (bus : nat) : (Z * list byte) * nat :=
  ((-1, []), S bus).

End DeskPinTable.

(** ** Properties of commands used to state further facts *)
Module SimulatorProps.
Import Simulator.

(** A command never puts into the pin table a pin id or a value that is
    no byte. *)
Definition keeps_bytes {A} (c : M A) : Prop :=
  forall w, table_fits_bytes (pin_map w) ->
            table_fits_bytes (pin_map (snd (c w))).

(** A callback that leaves the pin table alone. *)
Definition leaves_table (callback_body : Callback -> Z -> M unit) : Prop :=
  forall c pin w, pin_map (snd (callback_body c pin w)) = pin_map w.

(** The locks are free and no pin id appears twice in the table. *)
Definition tidy_world (w : World) : Prop :=
  pin_map_lock w = false /\ sync_client_lock w = false /\
  NoDup (dict_keys (pin_map w)).

(** The same inside a critical section on the pin table. *)
Definition inside_lock (w : World) : Prop :=
  pin_map_lock w = true /\ sync_client_lock w = false /\
  NoDup (dict_keys (pin_map w)).

(** A command keeps a property of the world and never waits for ever. *)
Definition keeps (P : World -> Prop) {A} (c : M A) : Prop :=
  forall w, P w -> P (snd (c w)) /\ fst (c w) <> Blocked.

(** The calls that the two threads make on the module. *)
Inductive Call : Type :=
| CallSetup (pin dir : Z)
| CallAddEventDetect (pin rf_type : Z) (callback : option Callback) (bouncetime : Z)
| CallInput (pin : Z)
| CallOutput (pin value : Z)
| CallSync
| CallMessage (chunk : list byte)
| CallTurn.

Definition run_call (callback_body : Callback -> Z -> M unit) (c : Call) : M unit :=
  match c with
  | CallSetup pin dir => GPIO_setup pin dir
  | CallAddEventDetect pin rf_type callback bouncetime =>
      GPIO_add_event_detect pin rf_type callback bouncetime
  | CallInput pin => bind (GPIO_input pin) (fun _ => ret tt)
  | CallOutput pin value => GPIO_output callback_body pin value
  | CallSync => sync_with_client
  | CallMessage chunk => process_message callback_body chunk
  | CallTurn => receive_turn callback_body
  end.

(** The calls one after the other, each caller going on after an
    exception; the outcomes are collected. *)
Fixpoint run_calls (callback_body : Callback -> Z -> M unit)
    (calls : list Call) (w : World) : list (Outcome unit) * World :=
  match calls with
  | [] => ([], w)
  | c :: rest =>
      let '(r, w1) := run_call callback_body c w in
      let '(rs, w2) := run_calls callback_body rest w1 in
      (r :: rs, w2)
  end.

End SimulatorProps.

(** ** Buses and byte tables used to state further facts *)
Module SensorBuses.

(** A bus that gives the same answer to every read. *)
Definition steady_read (answer : Z * list byte) (bus : unit)
  : (Z * list byte) * unit := (answer, tt).

(** The eight shifts that [Crc8.update] applies to one byte. *)
Definition step8 (x : Z) : Z := Nat.iter 8 Crc8.shift_bit x.

(** The values a byte can take. *)
Definition all_bytes : list Z := map Z.of_nat (seq 0 256).

(** A frame whose room word and sixteen pixel words are all 250, closed by
    its PEC byte. *)
Definition level_body : list byte := concat (repeat [xfa; x00] 17).

Definition level_frame : list byte :=
  Eval vm_compute in
    level_body ++
    match Byte.of_N (Z.to_N (OmronD6T.__calculate_pec level_body)) with
    | Some pec => [pec]
    | None => []
    end.

End SensorBuses.

(** * Facts about the sensor pipeline *)
Module SensorFacts.
Import OmronD6T.

(** The catalogue's check value: the CRC of the ASCII string 123456789. *)
Example crc8_check_value :
  Crc8.crc8_func [x31; x32; x33; x34; x35; x36; x37; x38; x39] = 0xF4.
Proof. reflexivity. Qed.

Lemma byte_val_range (b : byte) : 0 <= byte_val b < 256.
Proof.
  unfold byte_val. pose proof (Byte.to_N_bounded b). lia.
Qed.

(** [(hi << 8) | lo] is the little-endian value of the two bytes. *)
Lemma word_of_le (lo hi : byte) :
  word_of lo hi = byte_val lo + 256 * byte_val hi.
Proof.
  unfold word_of.
  pose proof (byte_val_range lo) as Hlo.
  pose proof (byte_val_range hi) as Hhi.
  assert (Hdisj : Z.land (Z.shiftl (byte_val hi) 8) (byte_val lo) = 0).
  { apply Z.bits_inj'. intros n Hn.
    rewrite Z.land_spec, Z.bits_0.
    destruct (Z.ltb_spec n 8) as [Hlt | Hge].
    - rewrite Z.shiftl_spec_low by lia. reflexivity.
    - rewrite (Z.bits_above_log2 (byte_val lo) n).
      + apply andb_false_r.
      + lia.
      + destruct (Z.eq_dec (byte_val lo) 0) as [E | E].
        * rewrite E. simpl. lia.
        * apply Z.log2_lt_pow2; [lia |].
          apply Z.lt_le_trans with (2 ^ 8); [simpl; lia |].
          apply Z.pow_le_mono_r; lia. }
  rewrite <- Z.lxor_lor by exact Hdisj.
  rewrite <- Z.add_nocarry_lxor by exact Hdisj.
  rewrite Z.shiftl_mul_pow2 by lia.
  change (2 ^ 8) with 256. lia.
Qed.

Lemma le16_at_word (raw : list byte) (off : nat) (lo hi : byte) :
  item raw off = Some lo -> item raw (off + 1) = Some hi ->
  word_of lo hi = le16_at raw off.
Proof.
  unfold item, le16_at. intros Hlo Hhi.
  rewrite (nth_error_nth _ _ x00 Hlo), (nth_error_nth _ _ x00 Hhi).
  apply word_of_le.
Qed.

Lemma item_in_range {A} (l : list A) (i : nat) :
  (i < length l)%nat -> exists x, item l i = Some x.
Proof.
  intros Hlt. unfold item. destruct (nth_error l i) eqn:E; eauto.
  apply nth_error_None in E. lia.
Qed.

Lemma list_assign_middle {A} (pre : list A) (y : A) (suf : list A) (x : A) :
  list_assign (pre ++ y :: suf) (length pre) x = Some (pre ++ x :: suf).
Proof.
  induction pre as [| h pre IH]; simpl.
  - reflexivity.
  - rewrite IH. reflexivity.
Qed.

(** Invariant of the decoding loop: after the turns for pixels
    [a .. a + n - 1], those cells hold the decoded words, and the cells
    before and after are untouched. *)
Lemma parse_loop_invariant (raw : list byte) (n : nat) :
  forall (a : nat) (pre suf : list float),
    length pre = a ->
    (n <= length suf)%nat ->
    (2 + 2 * (a + n) <= length raw)%nat ->
    fold_left (parse_step raw)
              (map (fun k => (2 + k * 2)%nat) (seq a n))
              (Ok (a, pre ++ suf))
    = Ok ((a + n)%nat,
          pre ++ map (fun i => truediv (le16_at raw (2 + 2 * i)) 10) (seq a n)
              ++ skipn n suf).
Proof.
  induction n as [| n IH]; intros a pre suf Hpre Hsuf Hraw.
  - simpl. rewrite Nat.add_0_r. reflexivity.
  - destruct suf as [| y suf]; [simpl in Hsuf; lia |].
    simpl in Hsuf.
    destruct (item_in_range raw (2 + a * 2)) as [lo Hlo]; [lia |].
    destruct (item_in_range raw (2 + a * 2 + 1)) as [hi Hhi]; [lia |].
    cbn [seq map fold_left]. unfold parse_step at 2.
    rewrite Hhi, Hlo. rewrite <- Hpre at 2.
    rewrite list_assign_middle.
    rewrite (le16_at_word raw _ lo hi Hlo Hhi).
    replace (pre ++ truediv (le16_at raw (2 + a * 2)) 10 :: suf)
      with ((pre ++ [truediv (le16_at raw (2 + a * 2)) 10]) ++ suf)
      by (rewrite <- app_assoc; reflexivity).
    replace (a + 1)%nat with (S a) by lia.
    rewrite IH.
    + replace (S a + n)%nat with (a + S n)%nat by lia.
      replace (2 + a * 2)%nat with (2 + 2 * a)%nat by lia.
      rewrite <- app_assoc. reflexivity.
    + rewrite length_app. simpl. lia.
    + lia.
    + lia.
Qed.

(** The decoding loop computes the layout of the specification. *)
Lemma parse_is_decode_spec (raw : list byte) :
  length raw = 35%nat ->
  __parse_temperature_data raw = Ok (Some (decode_spec raw)).
Proof.
  intros H.
  unfold __parse_temperature_data. rewrite H.
  change (negb (Z.of_nat 35 =? BUFFER_LENGTH)) with false. cbv iota.
  destruct (item_in_range raw 0) as [lo Hlo]; [lia |].
  destruct (item_in_range raw 1) as [hi Hhi]; [lia |].
  rewrite Hhi, Hlo.
  rewrite (le16_at_word raw 0 lo hi Hlo Hhi).
  change (py_range 2 (35 - 2) 2)
    with (map (fun k => (2 + k * 2)%nat) (seq 0 16)).
  change (repeat 0%float ARRAY_SIZE) with ([] ++ repeat 0%float 16).
  rewrite (parse_loop_invariant raw 16 0 [] (repeat 0%float 16));
    [| reflexivity | simpl; lia | lia].
  cbv zeta. unfold decode_spec.
  change (skipn 16 (repeat 0%float 16)) with (@nil float).
  rewrite app_nil_r. reflexivity.
Qed.

Lemma nth_map_seq {A} (f : nat -> A) (n i : nat) (d : A) :
  (i < n)%nat -> nth i (map f (seq 0 n)) d = f i.
Proof.
  intros Hlt.
  rewrite (nth_indep _ d (f O)) by (rewrite length_map, length_seq; exact Hlt).
  rewrite map_nth, seq_nth by exact Hlt. reflexivity.
Qed.

(** C6. A 35-byte frame decodes to the room temperature held little-endian
    at offset 0, divided by 10, and to 16 pixel temperatures held
    little-endian at offsets 2, 4, ..., 32, each divided by 10, in array
    order; the room bytes [0xFA, 0x00] give 25.0 and a pixel pair
    [0x64, 0x00] gives 10.0. *)
Theorem parse_temperature_data_layout (raw : list byte) :
  length raw = 35%nat ->
  exists room pixels,
    __parse_temperature_data raw = Ok (Some (room, pixels)) /\
    room = truediv (le16_at raw 0) 10 /\
    length pixels = 16%nat /\
    (forall i, (i < 16)%nat ->
       nth i pixels 0%float = truediv (le16_at raw (2 + 2 * i)) 10) /\
    (nth 0 raw x00 = xfa -> nth 1 raw x00 = x00 -> room = 25%float) /\
    (forall i, (i < 16)%nat ->
       nth (2 + 2 * i) raw x00 = x64 -> nth (2 + 2 * i + 1) raw x00 = x00 ->
       nth i pixels 0%float = 10%float).
Proof.
  intros H.
  exists (fst (decode_spec raw)), (snd (decode_spec raw)).
  split; [rewrite (parse_is_decode_spec raw H); reflexivity |].
  unfold decode_spec; cbn [fst snd].
  split; [reflexivity |].
  split; [rewrite length_map, length_seq; reflexivity |].
  split; [intros i Hi; rewrite nth_map_seq by exact Hi; reflexivity |].
  split.
  - intros H0 H1. unfold le16_at. cbn [Nat.add]. rewrite H0, H1. reflexivity.
  - intros i Hi H0 H1. rewrite nth_map_seq by exact Hi.
    unfold le16_at. rewrite H0, H1. reflexivity.
Qed.

Lemma last_item_of_frame (raw : list byte) :
  length raw = 35%nat -> last_item raw = Some (nth 34 raw x00).
Proof.
  intros H. unfold last_item. rewrite H. cbn [Nat.sub].
  apply nth_error_nth'. lia.
Qed.

Lemma removelast_of_frame (raw : list byte) :
  length raw = 35%nat -> removelast raw = firstn 34 raw.
Proof.
  intros H. rewrite removelast_firstn_len, H. reflexivity.
Qed.

Section AcquisitionFacts.

Variable Bus : Type.
Variable read_raw_data : Bus -> (Z * list byte) * Bus.

(** The retry loop returns the decoding of the first valid frame among
    its reads, having read no further, and nothing when there is none. *)
Lemma read_loop_first_accepted (n : nat) :
  forall bus,
    (forall r, In r (attempts Bus read_raw_data n bus) -> count_matches_buffer r) ->
    match first_accepted (attempts Bus read_raw_data n bus) with
    | Some (i, raw) =>
        (i < n)%nat /\
        read_loop Bus read_raw_data n bus
        = (Ok (Some (decode_spec raw)), bus_after Bus read_raw_data (S i) bus)
    | None =>
        read_loop Bus read_raw_data n bus
        = (Ok None, bus_after Bus read_raw_data n bus)
    end.
Proof.
  induction n as [| n IH]; intros bus Hwf.
  - reflexivity.
  - cbn [attempts read_loop bus_after] in *.
    destruct (read_raw_data bus) as [[bytes_read raw] bus'] eqn:Eread.
    cbn [snd first_accepted].
    assert (Hhead : count_matches_buffer (bytes_read, raw))
      by (apply Hwf; left; reflexivity).
    assert (Htail : forall r, In r (attempts Bus read_raw_data n bus') ->
                              count_matches_buffer r)
      by (intros r Hr; apply Hwf; right; exact Hr).
    specialize (IH bus' Htail).
    unfold frame_accepted; cbn [fst snd].
    change 35 with BUFFER_LENGTH.
    destruct (bytes_read =? BUFFER_LENGTH) eqn:Ecount.
    + apply Z.eqb_eq in Ecount.
      pose proof (Hhead Ecount) as Hlen. cbn [snd] in Hlen.
      rewrite Hlen, Nat.eqb_refl. cbn [andb].
      rewrite (last_item_of_frame raw Hlen), (removelast_of_frame raw Hlen).
      unfold __calculate_pec, PEC_PREFIX. cbn [app].
      rewrite (Z.eqb_sym (byte_val (nth 34 raw x00))).
      destruct (Crc8.crc8_func (x15 :: firstn 34 raw) =? byte_val (nth 34 raw x00)).
      * split; [lia |]. rewrite (parse_is_decode_spec raw Hlen). reflexivity.
      * destruct (first_accepted (attempts Bus read_raw_data n bus'))
          as [[i raw'] |].
        -- destruct IH as [Hi IH]. split; [lia | exact IH].
        -- exact IH.
    + cbn [andb].
      destruct (first_accepted (attempts Bus read_raw_data n bus'))
        as [[i raw'] |].
      * destruct IH as [Hi IH]. split; [lia | exact IH].
      * exact IH.
Qed.

(** Whatever the bus does, a frame that the loop returns is the decoding
    of one of its reads, and that read is a valid frame. *)
Lemma read_loop_returns_valid (n : nat) :
  forall bus frame bus',
    read_loop Bus read_raw_data n bus = (Ok (Some frame), bus') ->
    exists i raw,
      nth_error (attempts Bus read_raw_data n bus) i = Some (35, raw) /\
      frame_accepted (35, raw) = true /\
      frame = decode_spec raw.
Proof.
  induction n as [| n IH]; intros bus frame bus' H.
  - discriminate H.
  - cbn [read_loop attempts] in *.
    destruct (read_raw_data bus) as [[bytes_read raw] bus1].
    assert (Hrec : forall b, read_loop Bus read_raw_data n bus1 = (Ok (Some frame), b) ->
              exists i raw0,
                nth_error ((bytes_read, raw) :: attempts Bus read_raw_data n bus1) i
                = Some (35, raw0) /\
                frame_accepted (35, raw0) = true /\ frame = decode_spec raw0).
    { intros b Hb. destruct (IH bus1 frame b Hb) as (i & raw0 & Hi & Hacc & Hfr).
      exists (S i), raw0. auto. }
    destruct (bytes_read =? BUFFER_LENGTH) eqn:Ecount; [| eauto].
    apply Z.eqb_eq in Ecount.
    destruct (last_item raw) as [crc_expected |] eqn:Elast; [| discriminate H].
    destruct (byte_val crc_expected =? __calculate_pec (removelast raw)) eqn:Ecrc;
      [| eauto].
    unfold __parse_temperature_data in H.
    destruct (Z.of_nat (length raw) =? BUFFER_LENGTH) eqn:Elen;
      cbn [negb] in H; [| discriminate H].
    apply Z.eqb_eq in Elen. unfold BUFFER_LENGTH in Elen.
    assert (Hlen : length raw = 35%nat) by lia.
    pose proof (parse_is_decode_spec raw Hlen) as Hparse.
    unfold __parse_temperature_data in Hparse.
    replace (Z.of_nat (length raw) =? BUFFER_LENGTH) with true in Hparse
      by (symmetry; apply Z.eqb_eq; unfold BUFFER_LENGTH; lia).
    cbn [negb] in Hparse. rewrite Hparse in H.
    exists O, raw. cbn [nth_error]. unfold BUFFER_LENGTH in Ecount. subst bytes_read.
    split; [reflexivity |]. split; [| inversion H; reflexivity].
    unfold frame_accepted. cbn [fst snd].
    rewrite Hlen, Nat.eqb_refl, Z.eqb_refl. cbn [andb].
    rewrite (last_item_of_frame raw Hlen) in Elast. inversion Elast; subst.
    rewrite (removelast_of_frame raw Hlen) in Ecrc.
    unfold __calculate_pec, PEC_PREFIX in Ecrc. cbn [app] in Ecrc.
    rewrite (Z.eqb_sym (Crc8.crc8_func _)). exact Ecrc.
Qed.

(** C2. A frame that [__read] returns is always the decoding of a read
    that counted 35 bytes, held 35 bytes and whose last byte is the CRC-8
    of 0x15 followed by the 34 bytes before it.  Provided the bus reports
    the length of the buffer it returns, [__read] accepts exactly the first
    such read among at most [MAX_RETRIES]; every read before it is retried;
    when no read within the retry count is valid the result is [None]. *)
Theorem read_accepts_first_valid_frame (MAX_RETRIES : nat) (bus : Bus) :
  (forall frame bus',
     __read Bus read_raw_data MAX_RETRIES bus = (Ok (Some frame), bus') ->
     exists i raw,
       nth_error (attempts Bus read_raw_data MAX_RETRIES bus) i = Some (35, raw) /\
       frame_accepted (35, raw) = true /\
       frame = decode_spec raw) /\
  ((forall r, In r (attempts Bus read_raw_data MAX_RETRIES bus) ->
              count_matches_buffer r) ->
   match first_accepted (attempts Bus read_raw_data MAX_RETRIES bus) with
   | Some (i, raw) =>
       (i < MAX_RETRIES)%nat /\
       frame_accepted (35, raw) = true /\
       __read Bus read_raw_data MAX_RETRIES bus
       = (Ok (Some (decode_spec raw)), bus_after Bus read_raw_data (S i) bus)
   | None =>
       __read Bus read_raw_data MAX_RETRIES bus
       = (Ok None, bus_after Bus read_raw_data MAX_RETRIES bus)
   end).
Proof.
  split; [exact (read_loop_returns_valid MAX_RETRIES bus) |].
  intros Hwf. unfold __read.
  pose proof (read_loop_first_accepted MAX_RETRIES bus Hwf) as H.
  destruct (first_accepted (attempts Bus read_raw_data MAX_RETRIES bus))
    as [[i raw] |] eqn:E; [| exact H].
  destruct H as [Hi H]. repeat split; try assumption.
  clear - E. revert i E.
  induction (attempts Bus read_raw_data MAX_RETRIES bus) as [| r rs IH];
    intros i E; [discriminate |].
  cbn [first_accepted] in E.
  destruct (frame_accepted r) eqn:Er.
  - inversion E; subst. destruct r as [c b]. unfold frame_accepted in *.
    cbn [fst snd] in *.
    apply andb_true_iff in Er. destruct Er as [Er Hcrc].
    apply andb_true_iff in Er. destruct Er as [_ Hlen].
    rewrite Hlen, Hcrc. reflexivity.
  - destruct (first_accepted rs) as [[j raw'] |]; [| discriminate].
    inversion E; subst. eapply IH; reflexivity.
Qed.

Lemma cells_above_from (room : float) (pixels : list float) (acc : Z) :
  fold_left (fun a (b : bool) => a + (if b then 1 else 0))
            (map (fun t => PrimFloat.ltb room t) pixels) acc
  = acc + Z.of_nat (count_above room pixels).
Proof.
  unfold count_above. revert acc.
  induction pixels as [| t pixels IH]; intros acc; cbn [map fold_left filter].
  - simpl. lia.
  - rewrite IH. destruct (PrimFloat.ltb room t); cbn [length]; lia.
Qed.

(** The sum of the comparisons is the number of warmer pixels. *)
Lemma cells_above_is_count (room : float) (pixels : list float) :
  __temperature_cells_above_threshold room pixels
  = Z.of_nat (count_above room pixels).
Proof.
  unfold __temperature_cells_above_threshold.
  rewrite cells_above_from. lia.
Qed.

(** C3. When a frame was acquired, [occupied_status] is true exactly when
    at least 10 pixels are strictly warmer than the room (true at exactly
    10, false at exactly 9); when no frame was acquired it is false, and
    nothing is raised. *)
Theorem occupied_status_threshold
    (MAX_RETRIES : nat) (bus bus' : Bus) (acquired : option Frame) :
  __read Bus read_raw_data MAX_RETRIES bus = (Ok acquired, bus') ->
  occupied_status Bus read_raw_data MAX_RETRIES bus
  = (Ok match acquired with
        | Some (room, pixels) => (10 <=? count_above room pixels)%nat
        | None => false
        end, bus') /\
  (forall room pixels, acquired = Some (room, pixels) ->
     count_above room pixels = 10%nat ->
     occupied_status Bus read_raw_data MAX_RETRIES bus = (Ok true, bus')) /\
  (forall room pixels, acquired = Some (room, pixels) ->
     count_above room pixels = 9%nat ->
     occupied_status Bus read_raw_data MAX_RETRIES bus = (Ok false, bus')) /\
  (acquired = None ->
     occupied_status Bus read_raw_data MAX_RETRIES bus = (Ok false, bus')).
Proof.
  intros Hread.
  assert (Hgen : occupied_status Bus read_raw_data MAX_RETRIES bus
                 = (Ok match acquired with
                       | Some (room, pixels) => (10 <=? count_above room pixels)%nat
                       | None => false
                       end, bus')).
  { unfold occupied_status. rewrite Hread.
    destruct acquired as [[room pixels] |]; [| reflexivity].
    rewrite cells_above_is_count. unfold MAX_CELLS_ABOVE_ROOM_TEMPERATURE.
    f_equal. f_equal.
    destruct (Nat.leb_spec 10 (count_above room pixels));
      [apply Z.leb_le | apply Z.leb_gt]; lia. }
  split; [exact Hgen |].
  split; [| split].
  - intros room pixels -> Hc. rewrite Hgen, Hc. reflexivity.
  - intros room pixels -> Hc. rewrite Hgen, Hc. reflexivity.
  - intros ->. exact Hgen.
Qed.

End AcquisitionFacts.

(** The theorems at work on the sample frames. *)

Lemma parse_temperature_data_layout_witness :
  length sample_frame_10 = 35%nat /\
  exists room pixels,
    __parse_temperature_data sample_frame_10 = Ok (Some (room, pixels)) /\
    room = 25%float /\ nth 0 pixels 0%float = 30%float.
Proof.
  split; [reflexivity |].
  destruct (parse_temperature_data_layout sample_frame_10 eq_refl)
    as (room & pixels & Hparse & Hroom & _ & Hpix & _).
  exists room, pixels. split; [exact Hparse |]. split.
  - rewrite Hroom. vm_compute. reflexivity.
  - rewrite (Hpix 0%nat) by lia. vm_compute. reflexivity.
Defined.

Lemma sample_script_counts :
  forall r, In r (attempts _ scripted_read 3 sample_script) ->
            count_matches_buffer r.
Proof.
  intros r Hr. cbn [attempts scripted_read sample_script] in Hr.
  destruct Hr as [<- | [<- | [<- | []]]]; intros Hc;
    first [discriminate Hc | reflexivity].
Defined.

Lemma read_accepts_first_valid_frame_witness :
  (forall r, In r (attempts _ scripted_read 3 sample_script) ->
             count_matches_buffer r) /\
  __read _ scripted_read 3 sample_script
  = (Ok (Some (decode_spec sample_frame_10)), []).
Proof.
  split; [exact sample_script_counts |].
  pose proof (proj2 (read_accepts_first_valid_frame _ scripted_read 3 sample_script)
                sample_script_counts) as H.
  replace (first_accepted (attempts _ scripted_read 3 sample_script))
    with (Some (2%nat, sample_frame_10)) in H by (vm_compute; reflexivity).
  exact (proj2 (proj2 H)).
Defined.

Lemma sample_read_9 :
  __read _ scripted_read 3 [(35, sample_frame_9)]
  = (Ok (Some (decode_spec sample_frame_9)), []).
Proof. vm_compute. reflexivity. Qed.

Lemma sample_count_9 :
  count_above (fst (decode_spec sample_frame_9)) (snd (decode_spec sample_frame_9))
  = 9%nat.
Proof. vm_compute. reflexivity. Qed.

Lemma occupied_status_threshold_witness :
  __read _ scripted_read 3 [(35, sample_frame_9)]
  = (Ok (Some (decode_spec sample_frame_9)), []) /\
  occupied_status _ scripted_read 3 [(35, sample_frame_9)] = (Ok false, []).
Proof.
  split; [exact sample_read_9 |].
  exact (proj1 (proj2 (proj2
    (occupied_status_threshold _ scripted_read 3 [(35, sample_frame_9)] []
       (Some (decode_spec sample_frame_9)) sample_read_9)))
    _ _ eq_refl sample_count_9).
Defined.

(** Ten warmer pixels: occupied; no valid frame in three reads: not. *)
Example occupied_at_ten :
  occupied_status _ scripted_read 3 sample_script = (Ok true, []).
Proof. vm_compute. reflexivity. Qed.

Example unoccupied_without_frame :
  occupied_status _ scripted_read 3
    [(34, sample_body 10); (35, sample_frame_corrupt)]
  = (Ok false, []).
Proof. vm_compute. reflexivity. Qed.

End SensorFacts.

(** * Facts about the simulator *)
Module SimulatorFacts.
Import Simulator.

(** ** The dictionary *)

Lemma dict_get_set_same {V} (k : Z) (v : V) (d : Dict V) :
  dict_get k (dict_set k v d) = Some v.
Proof.
  induction d as [| [k' v'] d IH]; cbn [dict_set dict_get].
  - rewrite Z.eqb_refl. reflexivity.
  - destruct (k =? k') eqn:E; cbn [dict_get].
    + rewrite Z.eqb_refl. reflexivity.
    + rewrite E. exact IH.
Qed.

Lemma dict_get_set_other {V} (k q : Z) (v : V) (d : Dict V) :
  q <> k -> dict_get q (dict_set k v d) = dict_get q d.
Proof.
  intros Hne.
  assert (Hqk : (q =? k) = false) by (apply Z.eqb_neq; exact Hne).
  induction d as [| [k' v'] d IH]; cbn [dict_set dict_get].
  - rewrite Hqk. reflexivity.
  - destruct (k =? k') eqn:E; cbn [dict_get].
    + apply Z.eqb_eq in E. subst k'. rewrite Hqk. reflexivity.
    + rewrite IH. reflexivity.
Qed.

(** Assigning to a key that is present keeps the order of the keys. *)
Lemma dict_keys_set_present {V} (k : Z) (v x : V) (d : Dict V) :
  dict_get k d = Some x -> dict_keys (dict_set k v d) = dict_keys d.
Proof.
  unfold dict_keys.
  induction d as [| [k' v'] d IH]; cbn [dict_set dict_get map]; intros H.
  - discriminate.
  - destruct (k =? k') eqn:E; cbn [map fst].
    + apply Z.eqb_eq in E. subst. reflexivity.
    + rewrite (IH H). reflexivity.
Qed.

Lemma dict_get_in_keys {V} (k : Z) (d : Dict V) :
  dict_get k d = None <-> ~ In k (dict_keys d).
Proof.
  unfold dict_keys.
  induction d as [| [k' v'] d IH]; cbn [dict_get map fst In].
  - tauto.
  - destruct (k =? k') eqn:E.
    + apply Z.eqb_eq in E. subst. split; [discriminate | tauto].
    + apply Z.eqb_neq in E. rewrite IH. split; intros H; [intros [?|?]|]; auto.
Qed.

(** A new key goes to the end; the keys stay without duplicates. *)
Lemma dict_set_keeps_nodup {V} (k : Z) (v : V) (d : Dict V) :
  NoDup (dict_keys d) -> NoDup (dict_keys (dict_set k v d)).
Proof.
  destruct (dict_get k d) as [x |] eqn:E; intros Hnd.
  - rewrite (dict_keys_set_present k v x d E). exact Hnd.
  - unfold dict_keys in *.
    induction d as [| [k' v'] d IH]; cbn [dict_set dict_get map fst] in *.
    + constructor; [intros [] | constructor].
    + destruct (k =? k') eqn:Ek; [discriminate |].
      cbn [map fst]. inversion Hnd as [| ? ? Hnotin Hnd']; subst.
      constructor; [| apply IH; assumption].
      intros Hin. apply Hnotin.
      clear - Hin Ek. apply Z.eqb_neq in Ek.
      induction d as [| [k2 v2] d IH]; cbn [dict_set map fst In] in *.
      * destruct Hin as [? | []]. congruence.
      * destruct (k =? k2) eqn:E2; cbn [map fst In] in Hin.
        -- apply Z.eqb_eq in E2. subst. destruct Hin; [congruence | tauto].
        -- destruct Hin; [tauto | right; auto].
Qed.

(** ** The operations, one by one *)

Ltac open_world w :=
  let pm := fresh "pm" in let pml := fresh "pml" in let sc := fresh "sc" in
  let cs := fresh "cs" in let lk := fresh "lk" in let scl := fresh "scl" in
  let ss := fresh "ss" in let rt := fresh "rt" in let tr := fresh "tr" in
  destruct w as [pm pml sc cs lk scl ss rt tr];
  cbn [pin_map pin_map_lock simulatorConn clientSocket lock sync_client_lock
       should_sync run_thread trace] in *.

(** Reduces the fields of a world built by the setters. *)
Ltac world_simpl :=
  cbv beta iota zeta delta
    [pin_map pin_map_lock simulatorConn clientSocket lock sync_client_lock
     should_sync run_thread trace log logs set_pin_map set_clientSocket
     set_should_sync_field set_held acquired released held fst snd
     incoming sent send_errno] in *.

(** Unfolds a critical section on the table down to its accesses. *)
Ltac open_section :=
  unfold with_lock, bind, ret, table_contains, table_get, table_set,
    table_items, dict_contains;
  world_simpl.

(** Leaving a critical section entered with the lock free restores the
    lock and adds the two lock events. *)
Lemma released_acquired (l : LockId) (w : World) :
  held l w = false ->
  released l (acquired l w) = log (EvRelease l) (log (EvAcquire l) w).
Proof.
  intros H. open_world w. destruct l; cbn in *; subst; reflexivity.
Qed.

Lemma input_returns_entry (pin : Z) (w : World) :
  pin_map_lock w = false ->
  GPIO_input pin w
  = (Ok (option_map fst (dict_get pin (pin_map w))),
     log (EvRelease PinMapLock)
         (logs (input_accesses pin (pin_map w)) (log (EvAcquire PinMapLock) w))).
Proof.
  intros H. open_world w. subst.
  unfold GPIO_input, input_accesses. open_section.
  destruct (dict_get pin pm) as [entry |] eqn:E; world_simpl;
    try rewrite E; world_simpl; repeat rewrite <- app_assoc; reflexivity.
Qed.

Lemma setup_registers (pin dir : Z) (w : World) :
  pin_map_lock w = false ->
  GPIO_setup pin dir w
  = (Ok tt,
     log (EvRelease PinMapLock)
         (log (EvTableWrite pin 0 None)
              (log (EvAcquire PinMapLock)
                   (set_pin_map (dict_set pin (0, None) (pin_map w)) w)))).
Proof.
  intros H. open_world w. subst. unfold GPIO_setup. open_section. reflexivity.
Qed.

Lemma add_event_detect_registered
    (pin rf_type bouncetime : Z) (callback : option Callback) (w : World)
    (curState : Z) (old_call : option Callback) :
  pin_map_lock w = false ->
  dict_get pin (pin_map w) = Some (curState, old_call) ->
  GPIO_add_event_detect pin rf_type callback bouncetime w
  = (Ok tt,
     log (EvRelease PinMapLock)
         (log (EvTableWrite pin curState callback)
              (log (EvTableRead pin)
                   (log (EvAcquire PinMapLock)
                        (set_pin_map (dict_set pin (curState, callback) (pin_map w))
                                     w))))).
Proof.
  intros H Hget. open_world w. subst. unfold GPIO_add_event_detect. open_section.
  repeat (rewrite Hget; world_simpl). reflexivity.
Qed.

Lemma add_event_detect_unregistered
    (pin rf_type bouncetime : Z) (callback : option Callback) (w : World) :
  pin_map_lock w = false ->
  dict_get pin (pin_map w) = None ->
  GPIO_add_event_detect pin rf_type callback bouncetime w
  = (Raise KeyError,
     log (EvRelease PinMapLock)
         (log (EvTableRead pin) (log (EvAcquire PinMapLock) w))).
Proof.
  intros H Hget. open_world w. subst. unfold GPIO_add_event_detect. open_section.
  repeat (rewrite Hget; world_simpl). reflexivity.
Qed.

Lemma critical_section_registered
    (pin value old : Z) (cb : option Callback) (w : World) :
  pin_map_lock w = false ->
  dict_get pin (pin_map w) = Some (old, cb) ->
  output_critical_section pin value w
  = (Ok cb,
     log (EvRelease PinMapLock)
         (log (EvTableWrite pin value cb)
              (log (EvTableRead pin)
                   (log (EvTableRead pin)
                        (log (EvAcquire PinMapLock)
                             (set_pin_map (dict_set pin (value, cb) (pin_map w))
                                          w)))))).
Proof.
  intros H Hget. open_world w. subst. unfold output_critical_section. open_section.
  repeat (rewrite Hget; world_simpl). reflexivity.
Qed.

Lemma critical_section_unregistered (pin value : Z) (w : World) :
  pin_map_lock w = false ->
  dict_get pin (pin_map w) = None ->
  output_critical_section pin value w
  = (Ok None,
     log (EvRelease PinMapLock)
         (log (EvTableRead pin) (log (EvAcquire PinMapLock) w))).
Proof.
  intros H Hget. open_world w. subst. unfold output_critical_section. open_section.
  repeat (rewrite Hget; world_simpl). reflexivity.
Qed.

Lemma set_should_sync_sets (val : bool) (w : World) :
  sync_client_lock w = false ->
  set_should_sync val w
  = (Ok tt,
     log (EvRelease SyncClientLock)
         (log (EvAcquire SyncClientLock) (set_should_sync_field val w))).
Proof.
  intros H. unfold set_should_sync, with_lock. cbn [held]. rewrite H.
  open_world w. cbn in *. subst. reflexivity.
Qed.

Lemma should_sync_client_reads (w : World) :
  sync_client_lock w = false ->
  should_sync_client w
  = (Ok (should_sync w),
     log (EvRelease SyncClientLock) (log (EvAcquire SyncClientLock) w)).
Proof.
  intros H. unfold should_sync_client, with_lock. cbn [held]. rewrite H.
  open_world w. cbn in *. subst. reflexivity.
Qed.

Lemma can_run_thread_reads (w : World) :
  lock w = false ->
  can_run_thread w
  = (Ok (run_thread w),
     log (EvRelease ConnLock) (log (EvAcquire ConnLock) w)).
Proof.
  intros H. unfold can_run_thread, with_lock. cbn [held]. rewrite H.
  open_world w. cbn in *. subst. reflexivity.
Qed.

(** ** Building the sync message *)

Lemma bytearray_append_in_range (b : list byte) (x : Z) :
  0 <= x < 256 ->
  exists y, bytearray_append b x = Ok (b ++ [y]) /\ byte_val y = x.
Proof.
  intros Hx. unfold bytearray_append.
  replace ((0 <=? x) && (x <? 256)) with true
    by (symmetry; apply andb_true_iff; split; [apply Z.leb_le | apply Z.ltb_lt]; lia).
  destruct (Byte.of_N (Z.to_N x)) as [y |] eqn:E.
  - exists y. split; [reflexivity |].
    unfold byte_val. rewrite (Byte.to_of_N _ E). lia.
  - apply Byte.of_N_None_iff in E. lia.
Qed.

Lemma bytearray_append_out_of_range (b : list byte) (x : Z) :
  ~ (0 <= x < 256) -> bytearray_append b x = Raise ValueError.
Proof.
  intros Hx. unfold bytearray_append.
  replace ((0 <=? x) && (x <? 256)) with false; [reflexivity |].
  symmetry. apply andb_false_iff.
  destruct (Z.leb_spec 0 x); [right; apply Z.ltb_ge; lia | left; reflexivity].
Qed.

(** One entry either adds its triple or raises ValueError. *)
Lemma append_triple_cases (acc : list byte) (pin state : Z) (cb : option Callback) :
  (0 <= pin < 256 /\ 0 <= state < 256 /\
   exists p s, append_triple (Ok acc) (pin, (state, cb)) = Ok (acc ++ [x35; p; s]) /\
               byte_val p = pin /\ byte_val s = state)
  \/
  (~ (0 <= pin < 256 /\ 0 <= state < 256) /\
   append_triple (Ok acc) (pin, (state, cb)) = Raise ValueError).
Proof.
  assert (H35 : bytearray_append acc 0x35 = Ok (acc ++ [x35])) by reflexivity.
  destruct (Z_le_dec 0 pin) as [Hp0 |]; [destruct (Z_lt_dec pin 256) as [Hp1 |] |].
  - destruct (bytearray_append_in_range (acc ++ [x35]) pin (conj Hp0 Hp1))
      as [p [Ep Hp]].
    destruct (Z_le_dec 0 state) as [Hs0 |];
      [destruct (Z_lt_dec state 256) as [Hs1 |] |].
    + left. split; [lia |]. split; [lia |].
      destruct (bytearray_append_in_range ((acc ++ [x35]) ++ [p]) state
                  (conj Hs0 Hs1)) as [s0 [Es Hs]].
      exists p, s0. cbn [append_triple]. rewrite H35, Ep, Es.
      repeat rewrite <- app_assoc. cbn [app]. auto.
    + right. split; [lia |]. cbn [append_triple]. rewrite H35, Ep.
      apply bytearray_append_out_of_range. lia.
    + right. split; [lia |]. cbn [append_triple]. rewrite H35, Ep.
      apply bytearray_append_out_of_range. lia.
  - right. split; [lia |]. cbn [append_triple]. rewrite H35.
    rewrite bytearray_append_out_of_range by lia. reflexivity.
  - right. split; [lia |]. cbn [append_triple]. rewrite H35.
    rewrite bytearray_append_out_of_range by lia. reflexivity.
Qed.

Lemma append_triple_after_raise (e : Exn) (d : Dict (Z * option Callback)) :
  fold_left append_triple d (Raise e) = Raise e.
Proof.
  induction d as [| [pin [state cb]] d IH]; [reflexivity |].
  cbn [fold_left append_triple]. exact IH.
Qed.

(** A table of bytes is serialised whole, triple by triple, in order. *)
Lemma build_message_fits (d : Dict (Z * option Callback)) :
  table_fits_bytes d ->
  forall acc, exists msg,
    fold_left append_triple d (Ok acc) = Ok (acc ++ msg) /\
    map byte_val msg = snapshot d.
Proof.
  unfold table_fits_bytes.
  induction d as [| [pin [state cb]] d IH]; intros Hfit acc.
  - exists []. rewrite app_nil_r. split; reflexivity.
  - inversion Hfit as [| ? ? Hhead Htail]; subst. cbn [fst snd] in Hhead.
    destruct (append_triple_cases acc pin state cb)
      as [(_ & _ & p & s0 & Estep & Hp & Hs) | [Hbad _]]; [| tauto].
    destruct (IH Htail (acc ++ [x35; p; s0])) as [msg [Efold Hmsg]].
    exists ([x35; p; s0] ++ msg). split.
    + cbn [fold_left]. rewrite Estep, Efold, <- app_assoc. reflexivity.
    + unfold snapshot in *. cbn [flat_map map app fst snd].
      rewrite Hp, Hs. change (byte_val x35) with 0x35.
      f_equal. f_equal. f_equal. exact Hmsg.
Qed.

(** One entry that does not fit a byte makes the whole serialisation
    raise ValueError. *)
Lemma build_message_fails (d : Dict (Z * option Callback)) :
  ~ table_fits_bytes d ->
  forall acc, fold_left append_triple d (Ok acc) = Raise ValueError.
Proof.
  unfold table_fits_bytes.
  induction d as [| [pin [state cb]] d IH]; intros Hbad acc.
  - exfalso. apply Hbad. constructor.
  - cbn [fold_left].
    destruct (append_triple_cases acc pin state cb)
      as [(Hp & Hs & p & s0 & Estep & _) | [_ Estep]]; rewrite Estep.
    + apply IH. intros Htail. apply Hbad. constructor; [cbn; lia | exact Htail].
    + apply append_triple_after_raise.
Qed.

Lemma dict_get_In {V} (k : Z) (v : V) (d : Dict V) :
  dict_get k d = Some v -> In (k, v) d.
Proof.
  induction d as [| [k' v'] d IH]; cbn [dict_get]; intros H; [discriminate |].
  destruct (k =? k') eqn:E.
  - apply Z.eqb_eq in E. inversion H; subst. left. reflexivity.
  - right. exact (IH H).
Qed.

(** ** The full sync *)

Lemma sync_with_client_sends (w : World) (sock : Socket) (msg : list byte) :
  pin_map_lock w = false ->
  sync_client_lock w = false ->
  clientSocket w = Some sock ->
  send_errno sock = None ->
  fold_left append_triple (pin_map w) (Ok []) = Ok msg ->
  sync_with_client w
  = (Ok tt,
     mkWorld (pin_map w) false (simulatorConn w)
             (Some (mkSocket (incoming sock) (sent sock ++ [msg]) None))
             (lock w) false false (run_thread w)
             (trace w ++ [EvAcquire PinMapLock; EvTableItems; EvSend msg;
                          EvAcquire SyncClientLock; EvRelease SyncClientLock;
                          EvRelease PinMapLock])).
Proof.
  intros Hl Hsl Hsock Herr Hmsg.
  destruct sock as [inc snt serr]. cbn [send_errno incoming sent] in *. subst serr.
  open_world w. subst.
  unfold sync_with_client, build_send_b, socket_send, set_should_sync.
  open_section. rewrite Hmsg. world_simpl.
  repeat rewrite <- app_assoc. reflexivity.
Qed.

Lemma sync_with_client_value_error (w : World) :
  pin_map_lock w = false ->
  ~ table_fits_bytes (pin_map w) ->
  sync_with_client w
  = (Raise ValueError,
     log (EvRelease PinMapLock)
         (log EvTableItems (log (EvAcquire PinMapLock) w))).
Proof.
  intros Hl Hbad.
  pose proof (build_message_fails (pin_map w) Hbad []) as Hfold.
  open_world w. subst.
  unfold sync_with_client, build_send_b. open_section.
  rewrite Hfold. reflexivity.
Qed.

(** ** Messages from the client *)

(** C1. A message that starts with 0x35 and is shorter than 3 bytes passes
    the length check (1 to 3 bytes) and then fails on the index of the
    missing byte: IndexError is raised, the world is untouched. *)
Theorem process_message_short_set_pin
    (callback_body : Callback -> Z -> M unit) (w : World) (pin_byte : byte) :
  process_message callback_body [x35; pin_byte] w = (Raise IndexError, w) /\
  process_message callback_body [x35] w = (Raise IndexError, w).
Proof. split; reflexivity. Qed.

(** Messages of no or more than three bytes, and unknown commands, are
    dropped. *)
Lemma process_message_dropped
    (callback_body : Callback -> Z -> M unit) (w : World) (chunk : list byte) :
  (length chunk < 1)%nat \/ (3 < length chunk)%nat ->
  process_message callback_body chunk w = (Ok tt, w).
Proof.
  intros H. unfold process_message.
  replace ((length chunk <? 1)%nat || (3 <? length chunk)%nat) with true;
    [reflexivity |].
  symmetry. apply orb_true_iff.
  destruct H; [left | right]; apply Nat.ltb_lt; assumption.
Qed.

(** ** Unregistered pins *)


(** Reading an unregistered pin yields [None]. *)
Lemma input_unregistered (pin : Z) (w : World) :
  pin_map_lock w = false ->
  dict_get pin (pin_map w) = None ->
  fst (GPIO_input pin w) = Ok None /\
  pin_map (snd (GPIO_input pin w)) = pin_map w.
Proof.
  intros H Hget. rewrite (input_returns_entry pin w H), Hget.
  open_world w. split; reflexivity.
Qed.

(** Writing an unregistered pin leaves the table as it is and calls
    nothing. *)
Lemma output_unregistered
    (callback_body : Callback -> Z -> M unit) (pin value : Z) (w : World) :
  pin_map_lock w = false ->
  dict_get pin (pin_map w) = None ->
  GPIO_output callback_body pin value w
  = signal_sync
      (log (EvRelease PinMapLock)
           (log (EvTableRead pin) (log (EvAcquire PinMapLock) w))).
Proof.
  intros H Hget. unfold GPIO_output, bind.
  rewrite (critical_section_unregistered pin value w H Hget). reflexivity.
Qed.

Lemma signal_sync_keeps_table (w : World) :
  pin_map (snd (signal_sync w)) = pin_map w /\
  pin_map_lock (snd (signal_sync w)) = pin_map_lock w /\
  clientSocket (snd (signal_sync w)) = clientSocket w.
Proof.
  unfold signal_sync, set_should_sync, with_lock.
  open_world w. cbn [simulatorConn held].
  destruct sc; [| repeat split].
  destruct scl; repeat split.
Qed.

(** C9. On a pin that was never set up, a read returns [None] and a write
    leaves the table as it is, but registering a callback raises KeyError:
    the lookup [_pin_map[pin]] of [add_event_detect] is not guarded. *)
Theorem add_event_detect_unregistered_raises :
  fst (GPIO_input 7 fresh_world) = Ok None /\
  fst (GPIO_output reading_callback 7 1 fresh_world) = Ok tt /\
  pin_map (snd (GPIO_output reading_callback 7 1 fresh_world)) = pin_map fresh_world /\
  GPIO_add_event_detect 7 1 (Some 1%nat) 200 fresh_world
  = (Raise KeyError,
     log (EvRelease PinMapLock)
         (log (EvTableRead 7) (log (EvAcquire PinMapLock) fresh_world))).
Proof.
  split; [apply (input_unregistered 7 fresh_world); reflexivity |].
  rewrite (output_unregistered reading_callback 7 1 fresh_world eq_refl eq_refl).
  split; [reflexivity |]. split; [reflexivity |].
  apply add_event_detect_unregistered; reflexivity.
Qed.

(** ** Writing a registered pin *)




(** ** The full sync *)

(** C8. With every pin id and value of the table a byte, a client
    connected and the send succeeding, a full sync performs one send,
    whose bytes are one [0x35 <pin> <value>] triple per entry of the
    table, in table order, with the values the table holds; the table is
    unchanged and the flag is cleared. *)
Theorem sync_with_client_sends_snapshot (w : World) (sock : Socket) :
  pin_map_lock w = false ->
  sync_client_lock w = false ->
  clientSocket w = Some sock ->
  send_errno sock = None ->
  table_fits_bytes (pin_map w) ->
  exists msg w',
    sync_with_client w = (Ok tt, w') /\
    map byte_val msg = snapshot (pin_map w) /\
    length msg = (3 * length (pin_map w))%nat /\
    clientSocket w' = Some (mkSocket (incoming sock) (sent sock ++ [msg]) None) /\
    pin_map w' = pin_map w /\
    should_sync w' = false /\
    trace w' = trace w ++ [EvAcquire PinMapLock; EvTableItems; EvSend msg;
                           EvAcquire SyncClientLock; EvRelease SyncClientLock;
                           EvRelease PinMapLock].
Proof.
  intros Hl Hsl Hsock Herr Hfit.
  destruct (build_message_fits (pin_map w) Hfit []) as [msg [Hfold Hmsg]].
  cbn [app] in Hfold.
  exists msg. eexists. split.
  - apply (sync_with_client_sends w sock msg Hl Hsl Hsock Herr Hfold).
  - cbn [pin_map clientSocket should_sync trace].
    repeat split; try reflexivity; try exact Hmsg.
    rewrite <- (length_map byte_val), Hmsg. unfold snapshot.
    clear. induction (pin_map w) as [| e d IH]; [reflexivity |].
    cbn [flat_map length app]. rewrite IH. lia.
Qed.

(** ** Values that do not fit a byte *)

(** A write to a registered pin without callback completes. *)
Lemma output_without_callback_completes
    (callback_body : Callback -> Z -> M unit)
    (w : World) (pin value old : Z) :
  pin_map_lock w = false ->
  dict_get pin (pin_map w) = Some (old, None) ->
  sync_client_lock w = false ->
  exists w1,
    GPIO_output callback_body pin value w = (Ok tt, w1) /\
    pin_map w1 = dict_set pin (value, None) (pin_map w) /\
    pin_map_lock w1 = false /\
    clientSocket w1 = clientSocket w.
Proof.
  intros Hl Hget Hsl.
  unfold GPIO_output, bind.
  rewrite (critical_section_registered pin value old None w Hl Hget).
  unfold ret, signal_sync, set_should_sync, with_lock.
  open_world w. subst. world_simpl.
  destruct sc; eexists; (split; [reflexivity |]); repeat split.
Qed.

(** C10. A write of a value outside 0..255 to a registered pin (here one
    without callback) is accepted and stored; the next full sync raises
    ValueError while it builds the message, and sends nothing. *)
Theorem output_stores_any_value_then_sync_fails
    (callback_body : Callback -> Z -> M unit)
    (w : World) (pin value old : Z) :
  pin_map_lock w = false ->
  sync_client_lock w = false ->
  dict_get pin (pin_map w) = Some (old, None) ->
  ~ (0 <= value < 256) ->
  exists w1 w2,
    GPIO_output callback_body pin value w = (Ok tt, w1) /\
    dict_get pin (pin_map w1) = Some (value, None) /\
    fst (GPIO_input pin w1) = Ok (Some value) /\
    sync_with_client w1 = (Raise ValueError, w2) /\
    clientSocket w2 = clientSocket w /\
    pin_map w2 = pin_map w1.
Proof.
  intros Hl Hsl Hget Hbad.
  destruct (output_without_callback_completes callback_body w pin value old Hl Hget Hsl)
    as (w1 & Hout & Hpm & Hl1 & Hcs).
  assert (Hget1 : dict_get pin (pin_map w1) = Some (value, None))
    by (rewrite Hpm; apply dict_get_set_same).
  assert (Hnofit : ~ table_fits_bytes (pin_map w1)).
  { intros Hfit. unfold table_fits_bytes in Hfit.
    rewrite Forall_forall in Hfit.
    specialize (Hfit _ (dict_get_In pin _ _ Hget1)). cbn [fst snd] in Hfit. lia. }
  exists w1. eexists.
  split; [exact Hout |]. split; [exact Hget1 |].
  split; [rewrite (input_returns_entry pin w1 Hl1), Hget1; reflexivity |].
  split; [apply (sync_with_client_value_error w1 Hl1 Hnofit) |].
  split; [rewrite <- Hcs; destruct w1; reflexivity | destruct w1; reflexivity].
Qed.

(** ** The scope of the pin-table lock *)



Lemma trace_log (e : Event) (w : World) : trace (log e w) = trace w ++ [e].
Proof. reflexivity. Qed.

Lemma trace_logs (evs : list Event) (w : World) :
  trace (logs evs w) = trace w ++ evs.
Proof. reflexivity. Qed.

Lemma trace_set_pin_map (d : Dict (Z * option Callback)) (w : World) :
  trace (set_pin_map d w) = trace w.
Proof. reflexivity. Qed.


Ltac trace_eq :=
  cbn [snd];
  repeat (rewrite trace_log || rewrite trace_logs || rewrite trace_set_pin_map);
  repeat rewrite <- app_assoc; reflexivity.






Lemma connected_world_fits : table_fits_bytes (pin_map connected_world).
Proof.
  unfold table_fits_bytes, connected_world. cbn [pin_map].
  repeat constructor; cbn [fst snd]; lia.
Defined.




(** ** One turn of the receive loop *)

Lemma socket_recv_no_data (w : World) (sock : Socket) :
  clientSocket w = Some sock -> incoming sock = [] ->
  socket_recv w = (Raise (SocketError EAGAIN), log EvRecv w).
Proof.
  intros Hsock Hinc. unfold socket_recv. rewrite Hsock, Hinc. reflexivity.
Qed.

Lemma socket_recv_data (w : World) (sock : Socket)
    (chunk : list byte) (rest : list RecvOutcome) :
  clientSocket w = Some sock -> incoming sock = RecvData chunk :: rest ->
  socket_recv w = (Ok chunk, after_recv sock rest w).
Proof.
  intros Hsock Hinc. unfold socket_recv. rewrite Hsock, Hinc. reflexivity.
Qed.

(** With nothing to receive, the turn ends in the handler of EAGAIN: the
    flag is not looked at. *)
Lemma receive_turn_no_data
    (callback_body : Callback -> Z -> M unit) (w : World) (sock : Socket) :
  clientSocket w = Some sock -> incoming sock = [] ->
  receive_turn callback_body w = (Ok tt, log EvRecv w).
Proof.
  intros Hsock Hinc. unfold receive_turn, try_socket_error, bind at 1.
  rewrite (socket_recv_no_data w sock Hsock Hinc). reflexivity.
Qed.

(** As long as the client is silent and the thread is to go on, every
    turn of the loop is the test of [run_thread] and a [recv] that finds
    nothing: the flag is never looked at. *)
Lemma receive_loop_silent_client
    (callback_body : Callback -> Z -> M unit) (turns : nat) :
  forall (w : World) (sock : Socket),
    lock w = false -> run_thread w = true ->
    clientSocket w = Some sock -> incoming sock = [] ->
    receive_loop callback_body turns w
    = (Ok tt,
       logs (concat (repeat [EvAcquire ConnLock; EvRelease ConnLock; EvRecv] turns))
            w).
Proof.
  induction turns as [| turns IH]; intros w sock Hlk Hrun Hsock Hinc.
  - cbn [receive_loop repeat concat]. unfold ret, logs.
    rewrite app_nil_r. destruct w. reflexivity.
  - cbn [receive_loop]. unfold bind at 1.
    rewrite (can_run_thread_reads w Hlk), Hrun.
    unfold bind at 1.
    rewrite (receive_turn_no_data callback_body _ sock)
      by (destruct w; assumption).
    rewrite (IH _ sock) by (destruct w; assumption).
    cbn [repeat concat]. destruct w. unfold logs, log.
    cbn [pin_map pin_map_lock simulatorConn clientSocket lock sync_client_lock
         should_sync run_thread trace].
    repeat rewrite <- app_assoc. reflexivity.
Qed.

(** In the sample world a sync is owed and the client is silent: the turn
    sends nothing and the sync is still owed afterwards. *)
Lemma silent_turn_pushes_nothing :
  ~ pushes_whenever_sync_owed reading_callback.
Proof.
  intros H.
  destruct (H connected_world (mkSocket [] [] None)
              eq_refl eq_refl eq_refl eq_refl connected_world_fits eq_refl)
    as [Hflag _].
  vm_compute in Hflag. discriminate Hflag.
Qed.

(** C7. A change that is not pushed.  Pin 5 is set up with a callback, a
    client is connected and silent, no sync is owed.  Another thread
    writes 1 to pin 5: the write succeeds, the table holds the new value
    and the flag is set.  From there the receive loop, however many turns
    it makes, returns without an exception and does nothing but test
    [run_thread] and call [recv]: nothing is sent to the client, the flag
    stays set and the table keeps the value the client was never told. *)
Theorem caller_write_not_pushed_to_silent_client :
  should_sync listening_world = false /\
  clientSocket listening_world = Some (mkSocket [] [] None) /\
  exists w1,
    GPIO_output reading_callback 5 1 listening_world = (Ok tt, w1) /\
    dict_get 5 (pin_map w1) = Some (1, Some 1%nat) /\
    should_sync w1 = true /\
    clientSocket w1 = Some (mkSocket [] [] None) /\
    forall turns, exists w2,
      receive_loop reading_callback turns w1 = (Ok tt, w2) /\
      trace w2
      = trace w1
          ++ concat (repeat [EvAcquire ConnLock; EvRelease ConnLock; EvRecv] turns) /\
      clientSocket w2 = Some (mkSocket [] [] None) /\
      should_sync w2 = true /\
      pin_map w2 = pin_map w1.
Proof.
  split; [reflexivity |]. split; [reflexivity |].
  exists (snd (GPIO_output reading_callback 5 1 listening_world)).
  split; [vm_compute; reflexivity |].
  split; [vm_compute; reflexivity |].
  split; [vm_compute; reflexivity |].
  split; [vm_compute; reflexivity |].
  intros turns.
  set (w1 := snd (GPIO_output reading_callback 5 1 listening_world)).
  exists (logs (concat (repeat [EvAcquire ConnLock; EvRelease ConnLock; EvRecv] turns))
               w1).
  split.
  - apply (receive_loop_silent_client reading_callback turns w1
             (mkSocket [] [] None));
      vm_compute; reflexivity.
  - cbn [logs trace clientSocket should_sync pin_map].
    split; [reflexivity |].
    split; [vm_compute; reflexivity |].
    split; [vm_compute; reflexivity | reflexivity].
Qed.

(** The other witnesses, on the sample world. *)


Lemma sync_with_client_sends_snapshot_witness :
  table_fits_bytes (pin_map connected_world) /\
  exists msg w',
    sync_with_client connected_world = (Ok tt, w') /\
    map byte_val msg = [0x35; 5; 0; 0x35; 7; 1] /\
    clientSocket w' = Some (mkSocket [] [msg] None).
Proof.
  split; [exact connected_world_fits |].
  destruct (sync_with_client_sends_snapshot connected_world (mkSocket [] [] None)
              eq_refl eq_refl eq_refl eq_refl connected_world_fits)
    as (msg & w' & Hsync & Hmsg & _ & Hsock & _).
  exists msg, w'. split; [exact Hsync |]. split; [exact Hmsg | exact Hsock].
Defined.

Lemma three_hundred_is_no_byte : ~ (0 <= 300 < 256).
Proof. intros [_ H]. discriminate H. Defined.

Lemma output_stores_any_value_then_sync_fails_witness :
  dict_get 7 (pin_map connected_world) = Some (1, None) /\
  ~ (0 <= 300 < 256) /\
  exists w1 w2,
    GPIO_output reading_callback 7 300 connected_world = (Ok tt, w1) /\
    fst (GPIO_input 7 w1) = Ok (Some 300) /\
    sync_with_client w1 = (Raise ValueError, w2).
Proof.
  split; [reflexivity |]. split; [exact three_hundred_is_no_byte |].
  destruct (output_stores_any_value_then_sync_fails reading_callback
              connected_world 7 300 1 eq_refl eq_refl eq_refl
              three_hundred_is_no_byte)
    as (w1 & w2 & Hout & _ & Hin & Hsync & _).
  exists w1, w2. split; [exact Hout |]. split; [exact Hin | exact Hsync].
Defined.

End SimulatorFacts.

(** * Further facts about the sensor pipeline *)
Module SensorMore.
Import OmronD6T SensorBuses SensorFacts.

(** ** Decoding is total *)

(** [__parse_temperature_data] never raises: a buffer of 35 bytes is
    decoded, any other buffer gives [None]. *)
Theorem parse_temperature_data_total (raw : list byte) :
  __parse_temperature_data raw
  = if (length raw =? 35)%nat then Ok (Some (decode_spec raw)) else Ok None.
Proof.
  destruct (Nat.eqb_spec (length raw) 35) as [Hlen | Hlen].
  - apply parse_is_decode_spec. exact Hlen.
  - unfold __parse_temperature_data, BUFFER_LENGTH.
    replace (Z.of_nat (length raw) =? 35) with false; [reflexivity |].
    symmetry. apply Z.eqb_neq. lia.
Qed.

(** ** The checksum *)

Lemma shift_bit_range (x : Z) : 0 <= Crc8.shift_bit x < 256.
Proof.
  unfold Crc8.shift_bit. change 0xFF with (Z.ones 8).
  destruct (Z.testbit x 7); rewrite Z.land_ones by lia;
    apply Z.mod_pos_bound; reflexivity.
Qed.

Lemma update_range (crc : Z) (b : byte) : 0 <= Crc8.update crc b < 256.
Proof. unfold Crc8.update. cbn [Nat.iter]. apply shift_bit_range. Qed.

Lemma crc8_from_range (data : list byte) :
  forall crc, 0 <= crc < 256 -> 0 <= fold_left Crc8.update data crc < 256.
Proof.
  induction data as [| b data IH]; intros crc Hcrc; cbn [fold_left].
  - exact Hcrc.
  - apply IH. apply update_range.
Qed.

(** The PEC that [__calculate_pec] computes always fits one byte, so it
    can be compared with the last byte of a frame. *)
Theorem calculate_pec_is_byte (buf : list byte) :
  0 <= __calculate_pec buf < 256.
Proof.
  unfold __calculate_pec, Crc8.crc8_func. apply crc8_from_range. lia.
Qed.

Lemma in_all_bytes (x : Z) : 0 <= x < 256 -> In x all_bytes.
Proof.
  intros Hx. unfold all_bytes.
  replace x with (Z.of_nat (Z.to_nat x)) by lia.
  apply in_map. apply in_seq. lia.
Qed.

Lemma step8_injective_check :
  forallb (fun a => forallb (fun b => implb (step8 a =? step8 b) (a =? b))
                            all_bytes) all_bytes = true.
Proof. vm_compute. reflexivity. Qed.

(** On byte values the eight shifts lose nothing. *)
Lemma step8_injective (a b : Z) :
  0 <= a < 256 -> 0 <= b < 256 -> step8 a = step8 b -> a = b.
Proof.
  intros Ha Hb Heq.
  pose proof step8_injective_check as Hall.
  rewrite forallb_forall in Hall.
  specialize (Hall a (in_all_bytes a Ha)).
  rewrite forallb_forall in Hall.
  specialize (Hall b (in_all_bytes b Hb)).
  rewrite Heq, Z.eqb_refl in Hall. cbn [implb] in Hall.
  apply Z.eqb_eq. exact Hall.
Qed.

Lemma lxor_byte_check :
  forallb (fun a => forallb (fun b => (0 <=? Z.lxor a b) && (Z.lxor a b <? 256))
                            all_bytes) all_bytes = true.
Proof. vm_compute. reflexivity. Qed.

Lemma lxor_byte_range (a b : Z) :
  0 <= a < 256 -> 0 <= b < 256 -> 0 <= Z.lxor a b < 256.
Proof.
  intros Ha Hb.
  pose proof lxor_byte_check as Hall.
  rewrite forallb_forall in Hall.
  specialize (Hall a (in_all_bytes a Ha)).
  rewrite forallb_forall in Hall.
  specialize (Hall b (in_all_bytes b Hb)).
  apply andb_true_iff in Hall. destruct Hall as [H0 H1].
  apply Z.leb_le in H0. apply Z.ltb_lt in H1. lia.
Qed.

Lemma lxor_cancel_r (a b x : Z) : Z.lxor a x = Z.lxor b x -> a = b.
Proof.
  intros H.
  rewrite <- (Z.lxor_0_r a), <- (Z.lxor_0_r b), <- (Z.lxor_nilpotent x).
  rewrite <- !Z.lxor_assoc, H. reflexivity.
Qed.

Lemma byte_val_injective (b b' : byte) : byte_val b = byte_val b' -> b = b'.
Proof.
  unfold byte_val. intros H.
  assert (HN : Byte.to_N b = Byte.to_N b') by lia.
  pose proof (Byte.of_to_N b) as E. rewrite HN, Byte.of_to_N in E.
  inversion E. reflexivity.
Qed.

(** Two different CRC states stay different whatever bytes follow. *)
Lemma update_keeps_apart (data : list byte) :
  forall c1 c2, 0 <= c1 < 256 -> 0 <= c2 < 256 -> c1 <> c2 ->
    fold_left Crc8.update data c1 <> fold_left Crc8.update data c2.
Proof.
  induction data as [| b data IH]; intros c1 c2 H1 H2 Hne; cbn [fold_left].
  - exact Hne.
  - apply IH; try apply update_range.
    unfold Crc8.update. fold (step8 (Z.lxor c1 (byte_val b))).
    fold (step8 (Z.lxor c2 (byte_val b))).
    intros Heq. apply Hne.
    apply (lxor_cancel_r c1 c2 (byte_val b)).
    apply step8_injective; try exact Heq;
      apply lxor_byte_range; try assumption; apply byte_val_range.
Qed.

(** Changing one byte of the checked bytes, anywhere, changes the PEC. *)
Theorem calculate_pec_detects_changed_byte (pre suf : list byte) (b b' : byte) :
  b <> b' ->
  __calculate_pec (pre ++ b :: suf) <> __calculate_pec (pre ++ b' :: suf).
Proof.
  intros Hne. unfold __calculate_pec, Crc8.crc8_func.
  rewrite !app_assoc, !fold_left_app. cbn [fold_left].
  set (c := fold_left Crc8.update (PEC_PREFIX ++ pre) 0).
  assert (Hc : 0 <= c < 256) by (apply crc8_from_range; lia).
  apply update_keeps_apart; try apply update_range.
  unfold Crc8.update. fold (step8 (Z.lxor c (byte_val b))).
  fold (step8 (Z.lxor c (byte_val b'))).
  intros Heq. apply Hne. apply byte_val_injective.
  apply (lxor_cancel_r _ _ c).
  rewrite (Z.lxor_comm (byte_val b)), (Z.lxor_comm (byte_val b')).
  apply step8_injective; try exact Heq;
    apply lxor_byte_range; try assumption; apply byte_val_range.
Qed.

Lemma calculate_pec_detects_changed_byte_witness :
  x2c <> x2d /\
  __calculate_pec ([xfa; x00] ++ x2c :: [x01]) <>
  __calculate_pec ([xfa; x00] ++ x2d :: [x01]).
Proof.
  assert (H : x2c <> x2d) by discriminate.
  split; [exact H |].
  exact (calculate_pec_detects_changed_byte [xfa; x00] [x01] x2c x2d H).
Defined.

(** ** A sensor that keeps sending the same damaged frame *)

Lemma steady_attempts (r : Z * list byte) (n : nat) (bus : unit) :
  attempts unit (steady_read r) n bus = repeat r n.
Proof.
  revert bus. induction n as [| n IH]; intros bus; cbn [attempts repeat steady_read].
  - reflexivity.
  - rewrite IH. reflexivity.
Qed.

Lemma first_accepted_repeat_rejected (r : Z * list byte) (n : nat) :
  frame_accepted r = false -> first_accepted (repeat r n) = None.
Proof.
  intros Hr. induction n as [| n IH]; cbn [repeat first_accepted].
  - reflexivity.
  - rewrite Hr, IH. reflexivity.
Qed.

(** Every retry fails on such a bus: the result is [None] after the last
    one, and the desk is reported unoccupied. *)
Lemma steady_rejected_gives_none (r : Z * list byte) (MAX_RETRIES : nat) :
  frame_accepted r = false ->
  count_matches_buffer r ->
  __read unit (steady_read r) MAX_RETRIES tt = (Ok None, tt) /\
  occupied_status unit (steady_read r) MAX_RETRIES tt = (Ok false, tt).
Proof.
  intros Hrej Hcount.
  assert (Hread : __read unit (steady_read r) MAX_RETRIES tt = (Ok None, tt)).
  { unfold __read.
    pose proof (read_loop_first_accepted unit (steady_read r) MAX_RETRIES tt) as H.
    rewrite steady_attempts, (first_accepted_repeat_rejected r _ Hrej) in H.
    rewrite H.
    - destruct (bus_after unit (steady_read r) MAX_RETRIES tt). reflexivity.
    - intros r' Hin. apply repeat_spec in Hin. subst r'. exact Hcount. }
  split; [exact Hread |].
  unfold occupied_status. rewrite Hread. reflexivity.
Qed.

Lemma frame_parts (body : list byte) (pec : byte) :
  length body = 34%nat ->
  length (body ++ [pec]) = 35%nat /\
  firstn 34 (body ++ [pec]) = body /\
  nth 34 (body ++ [pec]) x00 = pec.
Proof.
  intros Hlen. split; [rewrite length_app, Hlen; reflexivity |]. split.
  - rewrite <- Hlen, firstn_app, Nat.sub_diag, firstn_all. cbn [firstn].
    apply app_nil_r.
  - rewrite app_nth2 by lia. rewrite Hlen. reflexivity.
Qed.

Lemma frame_accepted_iff_pec (body : list byte) (pec : byte) :
  length body = 34%nat ->
  frame_accepted (35, body ++ [pec]) = (__calculate_pec body =? byte_val pec).
Proof.
  intros Hlen. destruct (frame_parts body pec Hlen) as (H35 & Hfirst & Hlast).
  unfold frame_accepted. cbn [fst snd].
  rewrite H35, Hfirst, Hlast. reflexivity.
Qed.

(** A valid frame in which any one of the 34 checked bytes was changed on
    the way is never accepted: a sensor that keeps sending it is given up
    after [MAX_RETRIES] reads and the desk is reported unoccupied. *)
Theorem read_rejects_changed_body_byte
    (pre suf : list byte) (b b' pec : byte) (MAX_RETRIES : nat) :
  length (pre ++ b :: suf) = 34%nat ->
  frame_accepted (35, (pre ++ b :: suf) ++ [pec]) = true ->
  b <> b' ->
  __read unit (steady_read (35, (pre ++ b' :: suf) ++ [pec])) MAX_RETRIES tt
  = (Ok None, tt) /\
  occupied_status unit (steady_read (35, (pre ++ b' :: suf) ++ [pec])) MAX_RETRIES tt
  = (Ok false, tt).
Proof.
  intros Hlen Hacc Hne.
  assert (Hlen' : length (pre ++ b' :: suf) = 34%nat)
    by (rewrite length_app in *; cbn [length] in *; exact Hlen).
  rewrite (frame_accepted_iff_pec _ pec Hlen) in Hacc. apply Z.eqb_eq in Hacc.
  apply steady_rejected_gives_none.
  - rewrite (frame_accepted_iff_pec _ pec Hlen'). apply Z.eqb_neq.
    rewrite <- Hacc. intros Heq.
    exact (calculate_pec_detects_changed_byte pre suf b b' Hne (eq_sym Heq)).
  - intros _. cbn [snd]. apply (frame_parts _ pec Hlen').
Qed.

(** The same when it is the PEC byte that was changed. *)
Theorem read_rejects_changed_pec
    (body : list byte) (pec pec' : byte) (MAX_RETRIES : nat) :
  length body = 34%nat ->
  frame_accepted (35, body ++ [pec]) = true ->
  pec <> pec' ->
  __read unit (steady_read (35, body ++ [pec'])) MAX_RETRIES tt = (Ok None, tt) /\
  occupied_status unit (steady_read (35, body ++ [pec'])) MAX_RETRIES tt
  = (Ok false, tt).
Proof.
  intros Hlen Hacc Hne.
  rewrite (frame_accepted_iff_pec _ pec Hlen) in Hacc. apply Z.eqb_eq in Hacc.
  apply steady_rejected_gives_none.
  - rewrite (frame_accepted_iff_pec _ pec' Hlen). apply Z.eqb_neq.
    rewrite Hacc. intros Heq. apply Hne. apply byte_val_injective. exact Heq.
  - intros _. cbn [snd]. apply (frame_parts _ pec' Hlen).
Qed.

Lemma sample_body_length : length (sample_body 10) = 34%nat.
Proof. reflexivity. Defined.

Lemma sample_frame_accepted :
  frame_accepted (35, ([xfa; x00] ++ x2c :: skipn 3 (sample_body 10)) ++ [x15]) = true.
Proof. vm_compute. reflexivity. Defined.

Lemma read_rejects_changed_body_byte_witness :
  x2c <> x2d /\
  occupied_status unit
    (steady_read (35, ([xfa; x00] ++ x2d :: skipn 3 (sample_body 10)) ++ [x15]))
    3 tt = (Ok false, tt).
Proof.
  assert (H : x2c <> x2d) by discriminate.
  split; [exact H |].
  exact (proj2 (read_rejects_changed_body_byte [xfa; x00] (skipn 3 (sample_body 10))
                  x2c x2d x15 3 eq_refl sample_frame_accepted H)).
Defined.

Lemma sample_frame_accepted_whole :
  frame_accepted (35, sample_body 10 ++ [x15]) = true.
Proof. vm_compute. reflexivity. Defined.

Lemma read_rejects_changed_pec_witness :
  x15 <> xea /\
  __read unit (steady_read (35, sample_body 10 ++ [xea])) 3 tt = (Ok None, tt).
Proof.
  assert (H : x15 <> xea) by discriminate.
  split; [exact H |].
  exact (proj1 (read_rejects_changed_pec (sample_body 10) x15 xea 3
                  sample_body_length sample_frame_accepted_whole H)).
Defined.

(** ** What [__read] does whatever the bus answers *)

Section AnyBus.

Variable Bus : Type.
Variable read_raw_data : Bus -> (Z * list byte) * Bus.

Lemma bus_after_step (k : nat) (bus bus1 : Bus) (r : Z * list byte) :
  read_raw_data bus = (r, bus1) ->
  bus_after Bus read_raw_data (S k) bus = bus_after Bus read_raw_data k bus1.
Proof. intros H. cbn [bus_after]. rewrite H. reflexivity. Qed.

(** [__read] reads at least once when it may retry at all, never more
    than [MAX_RETRIES] times, and never waits on a lock. *)
Theorem read_reads_at_most_max_retries (MAX_RETRIES : nat) (bus : Bus) :
  exists k,
    (k <= MAX_RETRIES)%nat /\
    (MAX_RETRIES <> O -> k <> O) /\
    snd (__read Bus read_raw_data MAX_RETRIES bus) = bus_after Bus read_raw_data k bus /\
    fst (__read Bus read_raw_data MAX_RETRIES bus) <> Blocked.
Proof.
  unfold __read. revert bus.
  induction MAX_RETRIES as [| n IH]; intros bus.
  - exists O. repeat split; [lia | congruence | discriminate].
  - cbn [read_loop].
    destruct (read_raw_data bus) as [[bytes_read raw] bus1] eqn:Eread.
    assert (Hretry : exists k, (k <= S n)%nat /\ (S n <> O -> k <> O) /\
              snd (read_loop Bus read_raw_data n bus1)
              = bus_after Bus read_raw_data k bus /\
              fst (read_loop Bus read_raw_data n bus1) <> Blocked).
    { destruct (IH bus1) as (k & Hk & _ & Hbus & Hnb).
      exists (S k). rewrite (bus_after_step k bus bus1 _ Eread).
      repeat split; [lia | congruence | exact Hbus | exact Hnb]. }
    assert (Hstop : forall res : Outcome (option Frame), res <> Blocked ->
              exists k, (k <= S n)%nat /\ (S n <> O -> k <> O) /\
                snd (res, bus1) = bus_after Bus read_raw_data k bus /\
                fst (res, bus1) <> Blocked).
    { intros res Hres. exists 1%nat.
      rewrite (bus_after_step O bus bus1 _ Eread).
      repeat split; [lia | congruence | exact Hres]. }
    destruct (bytes_read =? BUFFER_LENGTH); [| exact Hretry].
    destruct (last_item raw) as [crc_expected |]; [| apply Hstop; discriminate].
    destruct (byte_val crc_expected =? __calculate_pec (removelast raw));
      [| exact Hretry].
    apply Hstop. rewrite parse_temperature_data_total.
    destruct (length raw =? 35)%nat; discriminate.
Qed.

(** [__read] raises nothing as long as no read pairs a count of 35 bytes
    with an empty buffer. *)
Theorem read_raises_only_on_empty_buffer (MAX_RETRIES : nat) (bus : Bus) :
  (forall r, In r (attempts Bus read_raw_data MAX_RETRIES bus) ->
             fst r = BUFFER_LENGTH -> snd r <> []) ->
  exists acquired, fst (__read Bus read_raw_data MAX_RETRIES bus) = Ok acquired.
Proof.
  unfold __read. revert bus.
  induction MAX_RETRIES as [| n IH]; intros bus Hne.
  - exists None. reflexivity.
  - cbn [read_loop attempts] in *.
    destruct (read_raw_data bus) as [[bytes_read raw] bus1].
    assert (Hretry : exists acquired,
              fst (read_loop Bus read_raw_data n bus1) = Ok acquired)
      by (apply IH; intros r Hr; apply Hne; right; exact Hr).
    destruct (bytes_read =? BUFFER_LENGTH) eqn:Ecount; [| exact Hretry].
    apply Z.eqb_eq in Ecount.
    destruct (last_item raw) as [crc_expected |] eqn:Elast.
    + destruct (byte_val crc_expected =? __calculate_pec (removelast raw));
        [| exact Hretry].
      rewrite parse_temperature_data_total.
      destruct (length raw =? 35)%nat; eexists; reflexivity.
    + exfalso. apply (Hne (bytes_read, raw)); [left; reflexivity | exact Ecount |].
      unfold last_item in Elast. destruct raw as [| b raw]; [reflexivity |].
      apply nth_error_None in Elast. cbn [length] in Elast. lia.
Qed.

(** The empty buffer is the one case: a read that counts 35 bytes and
    holds none makes [__read], and with it [occupied_status], raise
    IndexError at once. *)
Theorem read_empty_buffer_raises (n : nat) (bus bus1 : Bus) :
  read_raw_data bus = ((BUFFER_LENGTH, []), bus1) ->
  __read Bus read_raw_data (S n) bus = (Raise IndexError, bus1) /\
  occupied_status Bus read_raw_data (S n) bus = (Raise IndexError, bus1).
Proof.
  intros Hread.
  assert (H : __read Bus read_raw_data (S n) bus = (Raise IndexError, bus1))
    by (unfold __read; cbn [read_loop]; rewrite Hread; reflexivity).
  split; [exact H |]. unfold occupied_status. rewrite H. reflexivity.
Qed.

End AnyBus.

Lemma read_raises_only_on_empty_buffer_witness :
  (forall r, In r (attempts _ scripted_read 3 sample_script) ->
             fst r = BUFFER_LENGTH -> snd r <> []) /\
  exists acquired, fst (__read _ scripted_read 3 sample_script) = Ok acquired.
Proof.
  assert (H : forall r, In r (attempts _ scripted_read 3 sample_script) ->
                        fst r = BUFFER_LENGTH -> snd r <> []).
  { intros r Hr. cbn [attempts scripted_read sample_script] in Hr.
    destruct Hr as [<- | [<- | [<- | []]]]; intros _; discriminate. }
  split; [exact H |].
  exact (read_raises_only_on_empty_buffer _ scripted_read 3 sample_script H).
Defined.

Lemma read_empty_buffer_raises_witness :
  scripted_read [(35, [])] = ((BUFFER_LENGTH, []), []) /\
  occupied_status _ scripted_read 3 [(35, [])] = (Raise IndexError, []).
Proof.
  split; [reflexivity |].
  exact (proj2 (read_empty_buffer_raises _ scripted_read 2 [(35, [])] [] eq_refl)).
Defined.

(** ** Pixels that are exactly as warm as the room *)

Lemma SFltb_irrefl (f : spec_float) : SFltb f f = false.
Proof.
  unfold SFltb, SFcompare.
  destruct f as [s | s | | s m e]; try reflexivity.
  - destruct s; reflexivity.
  - rewrite Z.compare_refl.
    change (PosDef.Pos.compare_cont Eq m m) with (Pos.compare m m).
    rewrite Pos.compare_refl. destruct s; reflexivity.
Qed.

(** [x > x] is false for every float. *)
Lemma float_ltb_irrefl (x : float) : PrimFloat.ltb x x = false.
Proof. rewrite FloatAxioms.ltb_spec. apply SFltb_irrefl. Qed.

Lemma count_above_all_equal (room : float) (pixels : list float) :
  (forall t, In t pixels -> t = room) -> count_above room pixels = O.
Proof.
  unfold count_above. induction pixels as [| t pixels IH]; intros Hall.
  - reflexivity.
  - cbn [filter]. rewrite (Hall t (or_introl eq_refl)), float_ltb_irrefl.
    apply IH. intros t' Ht'. apply Hall. right. exact Ht'.
Qed.

Section FirstRead.

Variable Bus : Type.
Variable read_raw_data : Bus -> (Z * list byte) * Bus.

(** A first read that is a valid frame is returned decoded, without a
    second read. *)
Lemma read_loop_accepts_first (n : nat) (bus bus1 : Bus) (raw : list byte) :
  read_raw_data bus = ((35, raw), bus1) ->
  frame_accepted (35, raw) = true ->
  read_loop Bus read_raw_data (S n) bus = (Ok (Some (decode_spec raw)), bus1).
Proof.
  intros Hread Hacc. unfold frame_accepted in Hacc. cbn [fst snd] in Hacc.
  apply andb_true_iff in Hacc. destruct Hacc as [Hacc Hcrc].
  apply andb_true_iff in Hacc. destruct Hacc as [_ Hlen].
  apply Nat.eqb_eq in Hlen.
  cbn [read_loop]. rewrite Hread.
  change (35 =? BUFFER_LENGTH) with true. cbv iota.
  rewrite (last_item_of_frame raw Hlen), (removelast_of_frame raw Hlen).
  unfold __calculate_pec, PEC_PREFIX. cbn [app].
  rewrite Z.eqb_sym, Hcrc. rewrite (parse_is_decode_spec raw Hlen). reflexivity.
Qed.

(** The comparison with the room temperature is strict: a valid frame
    whose sixteen pixel words all equal the room word counts no pixel and
    the desk is reported unoccupied. *)
Theorem occupied_status_ignores_pixels_at_room_temperature
    (n : nat) (bus bus1 : Bus) (raw : list byte) :
  read_raw_data bus = ((35, raw), bus1) ->
  frame_accepted (35, raw) = true ->
  (forall i, (i < 16)%nat -> le16_at raw (2 + 2 * i) = le16_at raw 0) ->
  occupied_status Bus read_raw_data (S n) bus = (Ok false, bus1).
Proof.
  intros Hread Hacc Hsame.
  unfold occupied_status, __read.
  rewrite (read_loop_accepts_first n bus bus1 raw Hread Hacc).
  unfold decode_spec. rewrite cells_above_is_count.
  rewrite count_above_all_equal; [reflexivity |].
  intros t Ht. apply in_map_iff in Ht. destruct Ht as [i [<- Hi]].
  apply in_seq in Hi. rewrite Hsame by lia. reflexivity.
Qed.

End FirstRead.

Lemma level_frame_accepted : frame_accepted (35, level_frame) = true.
Proof. vm_compute. reflexivity. Defined.

Lemma level_frame_words (i : nat) :
  (i < 16)%nat -> le16_at level_frame (2 + 2 * i) = le16_at level_frame 0.
Proof.
  intros Hi.
  do 16 (destruct i as [| i]; [vm_compute; reflexivity |]).
  exfalso. lia.
Defined.

Lemma occupied_status_ignores_pixels_at_room_temperature_witness :
  frame_accepted (35, level_frame) = true /\
  occupied_status _ scripted_read 3 [(35, level_frame)] = (Ok false, []).
Proof.
  split; [exact level_frame_accepted |].
  exact (occupied_status_ignores_pixels_at_room_temperature _ scripted_read 2
           [(35, level_frame)] [] level_frame eq_refl level_frame_accepted
           level_frame_words).
Defined.

End SensorMore.

(** * Further facts about the simulator *)
Module SimulatorMore.
Import Simulator SimulatorProps SimulatorFacts.

Local Open Scope cmd_scope.

(** Reduces the fields of a world built by the setters. *)
Ltac world_cbn :=
  cbn [pin_map pin_map_lock simulatorConn clientSocket lock sync_client_lock
       should_sync run_thread trace log logs set_pin_map set_clientSocket
       set_should_sync_field set_run_thread set_held acquired released held
       fst snd incoming sent send_errno after_recv] in *.

Lemma signal_sync_attached (w : World) :
  simulatorConn w = true -> sync_client_lock w = false ->
  signal_sync w
  = (Ok tt,
     log (EvRelease SyncClientLock)
         (log (EvAcquire SyncClientLock) (set_should_sync_field true w))).
Proof.
  intros Hconn Hsl. unfold signal_sync. rewrite Hconn.
  apply set_should_sync_sets. exact Hsl.
Qed.

Lemma signal_sync_detached (w : World) :
  simulatorConn w = false -> signal_sync w = (Ok tt, w).
Proof. intros Hconn. unfold signal_sync. rewrite Hconn. reflexivity. Qed.

Lemma byte_val_range_sim (b : byte) : 0 <= byte_val b < 256.
Proof. unfold byte_val. pose proof (Byte.to_N_bounded b). lia. Qed.

(** ** Setting a pin up *)

Lemma dict_keys_set_absent {V} (k : Z) (v : V) (d : Dict V) :
  dict_get k d = None -> dict_keys (dict_set k v d) = dict_keys d ++ [k].
Proof.
  unfold dict_keys.
  induction d as [| [k' v'] d IH]; cbn [dict_set dict_get map fst app]; intros H.
  - reflexivity.
  - destruct (k =? k'); [discriminate |].
    cbn [map fst]. rewrite (IH H). reflexivity.
Qed.

(** [GPIO.setup] registers the pin with value 0 and no callback, also when
    it was registered before; the other pins are untouched; a pin that is
    new goes to the end of the table order, a known pin keeps its place,
    and no pin id ever appears twice. *)
Theorem setup_resets_pin (pin dir : Z) (w : World) :
  pin_map_lock w = false ->
  exists w1,
    GPIO_setup pin dir w = (Ok tt, w1) /\
    dict_get pin (pin_map w1) = Some (0, None) /\
    fst (GPIO_input pin w1) = Ok (Some 0) /\
    (forall q, q <> pin -> dict_get q (pin_map w1) = dict_get q (pin_map w)) /\
    (dict_get pin (pin_map w) = None ->
       dict_keys (pin_map w1) = dict_keys (pin_map w) ++ [pin]) /\
    (dict_get pin (pin_map w) <> None ->
       dict_keys (pin_map w1) = dict_keys (pin_map w)) /\
    (NoDup (dict_keys (pin_map w)) -> NoDup (dict_keys (pin_map w1))).
Proof.
  intros Hl. eexists. split; [apply (setup_registers pin dir w Hl) |].
  assert (Hpm : pin_map (log (EvRelease PinMapLock)
                  (log (EvTableWrite pin 0 None)
                     (log (EvAcquire PinMapLock)
                        (set_pin_map (dict_set pin (0, None) (pin_map w)) w))))
                = dict_set pin (0, None) (pin_map w)) by (destruct w; reflexivity).
  rewrite input_returns_entry by (destruct w; exact Hl).
  rewrite Hpm.
  split; [apply dict_get_set_same |].
  split; [rewrite dict_get_set_same; reflexivity |].
  split; [intros q Hq; apply dict_get_set_other; exact Hq |].
  split; [apply dict_keys_set_absent |].
  split; [| apply dict_set_keeps_nodup].
  intros Hreg. destruct (dict_get pin (pin_map w)) as [x |] eqn:E; [| congruence].
  apply (dict_keys_set_present pin (0, None) x _ E).
Qed.

Lemma setup_resets_pin_witness :
  pin_map_lock connected_world = false /\
  exists w1,
    GPIO_setup 5 1 connected_world = (Ok tt, w1) /\
    dict_get 5 (pin_map w1) = Some (0, None) /\
    dict_keys (pin_map w1) = [5; 7].
Proof.
  split; [reflexivity |].
  destruct (setup_resets_pin 5 1 connected_world eq_refl)
    as (w1 & Hsetup & Hget & _ & _ & _ & Hkeys & _).
  exists w1. split; [exact Hsetup |]. split; [exact Hget |].
  apply Hkeys. discriminate.
Defined.

(** ** Registering a callback *)

(** [GPIO.add_event_detect] on a registered pin keeps its value and the
    other pins and replaces its callback: the next write to the pin calls
    the callback registered last, and only that one. *)
Theorem add_event_detect_then_output
    (callback_body : Callback -> Z -> M unit)
    (pin rf_type bouncetime value v : Z)
    (c : Callback) (old_call : option Callback) (w : World) :
  pin_map_lock w = false ->
  dict_get pin (pin_map w) = Some (v, old_call) ->
  exists w1 w2,
    GPIO_add_event_detect pin rf_type (Some c) bouncetime w = (Ok tt, w1) /\
    fst (GPIO_input pin w1) = Ok (Some v) /\
    (forall q, q <> pin -> dict_get q (pin_map w1) = dict_get q (pin_map w)) /\
    dict_keys (pin_map w1) = dict_keys (pin_map w) /\
    GPIO_output callback_body pin value w1
    = (callback_body c pin ;; signal_sync) (log (EvCallback c pin) w2) /\
    dict_get pin (pin_map w2) = Some (value, Some c) /\
    trace w2 = trace w ++ [EvAcquire PinMapLock; EvTableRead pin;
                           EvTableWrite pin v (Some c); EvRelease PinMapLock;
                           EvAcquire PinMapLock; EvTableRead pin; EvTableRead pin;
                           EvTableWrite pin value (Some c); EvRelease PinMapLock].
Proof.
  intros Hl Hget.
  set (w1 := log (EvRelease PinMapLock)
               (log (EvTableWrite pin v (Some c))
                  (log (EvTableRead pin)
                     (log (EvAcquire PinMapLock)
                        (set_pin_map (dict_set pin (v, Some c) (pin_map w)) w))))).
  assert (Hl1 : pin_map_lock w1 = false) by (subst w1; destruct w; exact Hl).
  assert (Hpm1 : pin_map w1 = dict_set pin (v, Some c) (pin_map w))
    by (subst w1; destruct w; reflexivity).
  assert (Hget1 : dict_get pin (pin_map w1) = Some (v, Some c))
    by (rewrite Hpm1; apply dict_get_set_same).
  exists w1.
  exists (log (EvRelease PinMapLock)
            (log (EvTableWrite pin value (Some c))
               (log (EvTableRead pin)
                  (log (EvTableRead pin)
                     (log (EvAcquire PinMapLock)
                        (set_pin_map (dict_set pin (value, Some c) (pin_map w1))
                                     w1)))))).
  split; [apply (add_event_detect_registered pin rf_type bouncetime (Some c) w
                   v old_call Hl Hget) |].
  split; [rewrite (input_returns_entry pin w1 Hl1), Hget1; reflexivity |].
  split; [intros q Hq; rewrite Hpm1; apply dict_get_set_other; exact Hq |].
  split; [rewrite Hpm1; apply (dict_keys_set_present pin _ _ _ Hget) |].
  split.
  { unfold GPIO_output, bind at 1.
    rewrite (critical_section_registered pin value v (Some c) w1 Hl1 Hget1).
    reflexivity. }
  split.
  { destruct w1. cbn [log set_pin_map pin_map]. apply dict_get_set_same. }
  subst w1. trace_eq.
Qed.

Lemma add_event_detect_then_output_witness :
  dict_get 7 (pin_map connected_world) = Some (1, None) /\
  exists w1 w2,
    GPIO_add_event_detect 7 1 (Some 2%nat) 200 connected_world = (Ok tt, w1) /\
    GPIO_output reading_callback 7 0 w1
    = (reading_callback 2%nat 7 ;; signal_sync) (log (EvCallback 2%nat 7) w2).
Proof.
  split; [reflexivity |].
  destruct (add_event_detect_then_output reading_callback 7 1 200 0 1 2%nat None
              connected_world eq_refl eq_refl)
    as (w1 & w2 & Hreg & _ & _ & _ & Hout & _).
  exists w1, w2. split; [exact Hreg | exact Hout].
Defined.

(** ** A write to a pin that is not registered *)

(** The write is dropped and no callback is called, but the server is
    signalled all the same: with a server attached the needs-sync flag is
    set although nothing changed. *)
Theorem output_unregistered_still_signals
    (callback_body : Callback -> Z -> M unit) (pin value : Z) (w : World) :
  pin_map_lock w = false ->
  sync_client_lock w = false ->
  dict_get pin (pin_map w) = None ->
  exists w',
    GPIO_output callback_body pin value w = (Ok tt, w') /\
    pin_map w' = pin_map w /\
    should_sync w' = (if simulatorConn w then true else should_sync w) /\
    trace w' = trace w ++ [EvAcquire PinMapLock; EvTableRead pin;
                           EvRelease PinMapLock]
                       ++ (if simulatorConn w
                           then [EvAcquire SyncClientLock; EvRelease SyncClientLock]
                           else []).
Proof.
  intros Hl Hsl Hget.
  rewrite (output_unregistered callback_body pin value w Hl Hget).
  destruct (simulatorConn w) eqn:Hconn.
  - rewrite signal_sync_attached by (destruct w; assumption).
    eexists. split; [reflexivity |].
    destruct w. world_cbn. repeat rewrite <- app_assoc. repeat split.
  - rewrite signal_sync_detached by (destruct w; assumption).
    eexists. split; [reflexivity |].
    destruct w. world_cbn. repeat rewrite <- app_assoc. repeat split.
Qed.

Lemma output_unregistered_still_signals_witness :
  dict_get 9 (pin_map fresh_world) = None /\
  exists w',
    GPIO_output reading_callback 9 1 fresh_world = (Ok tt, w') /\
    pin_map w' = [] /\ should_sync w' = true.
Proof.
  split; [reflexivity |].
  destruct (output_unregistered_still_signals reading_callback 9 1 fresh_world
              eq_refl eq_refl eq_refl) as (w' & Hout & Hpm & Hflag & _).
  exists w'. split; [exact Hout |]. split; [exact Hpm | exact Hflag].
Defined.

(** ** The ways a full sync ends *)

(** The message is built whole, or building it raises ValueError; which
    of the two is decided by the table alone. *)
Lemma build_message_cases (d : Dict (Z * option Callback)) (acc : list byte) :
  (table_fits_bytes d /\
   exists msg, fold_left append_triple d (Ok acc) = Ok (acc ++ msg)) \/
  (~ table_fits_bytes d /\ fold_left append_triple d (Ok acc) = Raise ValueError).
Proof.
  revert acc. unfold table_fits_bytes.
  induction d as [| [pin [state cb]] d IH]; intros acc.
  - left. split; [constructor |]. exists []. rewrite app_nil_r. reflexivity.
  - cbn [fold_left].
    destruct (append_triple_cases acc pin state cb)
      as [(Hp & Hs & p & s0 & Estep & _) | [Hbad Estep]]; rewrite Estep.
    + destruct (IH (acc ++ [x35; p; s0])) as [[Hfit [msg Hmsg]] | [Hnofit Hfold]].
      * left. split; [constructor; [cbn [fst snd]; lia | exact Hfit] |].
        exists ([x35; p; s0] ++ msg). rewrite Hmsg, <- app_assoc. reflexivity.
      * right. split; [| exact Hfold].
        intros Hall. inversion Hall; subst. tauto.
    + right. split; [| apply append_triple_after_raise].
      intros Hall. inversion Hall as [| ? ? Hhead ?]; subst.
      cbn [fst snd] in Hhead. tauto.
Qed.

Lemma sync_with_client_no_client (w : World) (msg : list byte) :
  pin_map_lock w = false ->
  fold_left append_triple (pin_map w) (Ok []) = Ok msg ->
  clientSocket w = None ->
  sync_with_client w
  = (Raise AttributeError,
     log (EvRelease PinMapLock) (log EvTableItems (log (EvAcquire PinMapLock) w))).
Proof.
  intros Hl Hfold Hsock. open_world w. subst.
  unfold sync_with_client, build_send_b, socket_send.
  open_section. rewrite Hfold. reflexivity.
Qed.

Lemma sync_with_client_send_fails
    (w : World) (msg : list byte) (sock : Socket) (errno : Z) :
  pin_map_lock w = false ->
  fold_left append_triple (pin_map w) (Ok []) = Ok msg ->
  clientSocket w = Some sock ->
  send_errno sock = Some errno ->
  sync_with_client w
  = (Raise (SocketError errno),
     log (EvRelease PinMapLock) (log EvTableItems (log (EvAcquire PinMapLock) w))).
Proof.
  intros Hl Hfold Hsock Herr. open_world w. subst.
  unfold sync_with_client, build_send_b, socket_send.
  open_section. rewrite Hfold. world_simpl. rewrite Herr. reflexivity.
Qed.

(** A full sync that does not complete raises ValueError (a pin id or a
    value is no byte), AttributeError (no client socket yet) or the error
    of the failed send; in each case the pin-table lock is free again,
    nothing was sent, and the table and the needs-sync flag are as
    before. *)
Theorem sync_with_client_failure_modes (w : World) :
  pin_map_lock w = false ->
  sync_client_lock w = false ->
  (~ table_fits_bytes (pin_map w) ->
     fst (sync_with_client w) = Raise ValueError) /\
  (table_fits_bytes (pin_map w) -> clientSocket w = None ->
     fst (sync_with_client w) = Raise AttributeError) /\
  (forall sock errno,
     table_fits_bytes (pin_map w) -> clientSocket w = Some sock ->
     send_errno sock = Some errno ->
     fst (sync_with_client w) = Raise (SocketError errno)) /\
  fst (sync_with_client w) <> Blocked /\
  pin_map_lock (snd (sync_with_client w)) = false /\
  pin_map (snd (sync_with_client w)) = pin_map w /\
  (fst (sync_with_client w) <> Ok tt ->
     clientSocket (snd (sync_with_client w)) = clientSocket w /\
     should_sync (snd (sync_with_client w)) = should_sync w).
Proof.
  intros Hl Hsl.
  destruct (build_message_cases (pin_map w) [])
    as [[Hfit [msg Hfold]] | [Hnofit Hfold]].
  - cbn [app] in Hfold.
    destruct (clientSocket w) as [sock |] eqn:Hsock.
    + destruct (send_errno sock) as [errno |] eqn:Herr.
      * rewrite (sync_with_client_send_fails w msg sock errno Hl Hfold Hsock Herr).
        split; [tauto |]. split; [discriminate |].
        split; [intros s0 e0 _ Hs He; cbn [fst]; congruence |].
        split; [discriminate |].
        destruct w; world_cbn. repeat split; assumption.
      * rewrite (sync_with_client_sends w sock msg Hl Hsl Hsock Herr Hfold).
        split; [tauto |]. split; [discriminate |].
        split; [intros s0 e0 _ Hs He; cbn [fst]; congruence |].
        split; [discriminate |]. world_cbn.
        split; [reflexivity |]. split; [reflexivity |].
        intros Hne. exfalso. apply Hne. reflexivity.
    + rewrite (sync_with_client_no_client w msg Hl Hfold Hsock).
      split; [tauto |]. split; [reflexivity |].
      split; [discriminate |]. split; [discriminate |].
      destruct w; world_cbn. repeat split; assumption.
  - rewrite (sync_with_client_value_error w Hl Hnofit).
    split; [reflexivity |]. split; [tauto |]. split; [tauto |].
    split; [discriminate |].
    destruct w; world_cbn. repeat split; assumption.
Qed.

Lemma sync_with_client_failure_modes_witness :
  pin_map_lock fresh_world = false /\
  table_fits_bytes (pin_map fresh_world) /\
  fst (sync_with_client fresh_world) = Raise AttributeError.
Proof.
  split; [reflexivity |].
  assert (Hfit : table_fits_bytes (pin_map fresh_world)) by constructor.
  split; [exact Hfit |].
  exact (proj1 (proj2 (sync_with_client_failure_modes fresh_world eq_refl eq_refl))
           Hfit eq_refl).
Defined.

(** ** Messages *)

(** What [process_message] does with each shape of message: nothing for
    an empty message or one of more than three bytes, whatever its first
    byte; a full sync for a first byte 0x10, the bytes after it being
    ignored; a write for the three bytes 0x35, pin, value; nothing for any
    other first byte. *)
Theorem process_message_dispatch
    (callback_body : Callback -> Z -> M unit) (w : World) :
  (forall chunk, (length chunk < 1)%nat \/ (3 < length chunk)%nat ->
     process_message callback_body chunk w = (Ok tt, w)) /\
  (forall cmd rest, (length rest <= 2)%nat -> byte_val cmd = 0x10 ->
     process_message callback_body (cmd :: rest) w = sync_with_client w) /\
  (forall pin_byte value_byte,
     process_message callback_body [x35; pin_byte; value_byte] w
     = GPIO_output callback_body (byte_val pin_byte) (byte_val value_byte) w) /\
  (forall cmd rest, (length rest <= 2)%nat ->
     byte_val cmd <> 0x35 -> byte_val cmd <> 0x10 ->
     process_message callback_body (cmd :: rest) w = (Ok tt, w)).
Proof.
  split; [intros chunk H; apply process_message_dropped; exact H |].
  assert (Hlen : forall (cmd : byte) rest, (length rest <= 2)%nat ->
            (length (cmd :: rest) <? 1)%nat || (3 <? length (cmd :: rest))%nat = false).
  { intros cmd rest H. cbn [length]. apply orb_false_iff.
    split; [reflexivity | apply Nat.ltb_ge; lia]. }
  split; [| split; [reflexivity |]].
  - intros cmd rest Hrest Hcmd. unfold process_message.
    rewrite (Hlen cmd rest Hrest). cbn [item nth_error]. rewrite Hcmd. reflexivity.
  - intros cmd rest Hrest H35 H10. unfold process_message.
    rewrite (Hlen cmd rest Hrest). cbn [item nth_error].
    apply Z.eqb_neq in H35. apply Z.eqb_neq in H10. rewrite H35, H10. reflexivity.
Qed.

Lemma process_message_dispatch_witness :
  (length [x10; x00; x00] <= 3)%nat /\
  process_message reading_callback [x35; x05; x01; x00] connected_world
  = (Ok tt, connected_world) /\
  process_message reading_callback [x10; x00; x00] connected_world
  = sync_with_client connected_world.
Proof.
  split; [cbn [length]; lia |].
  pose proof (process_message_dispatch reading_callback connected_world)
    as (Hdrop & Hsync & _).
  split.
  - apply Hdrop. right. cbn [length]. lia.
  - apply Hsync; [cbn [length]; lia | reflexivity].
Defined.

(** ** A write that arrives from the client *)

Lemma fits_dict_set (d : Dict (Z * option Callback))
    (k v : Z) (cb : option Callback) :
  table_fits_bytes d -> 0 <= k < 256 -> 0 <= v < 256 ->
  table_fits_bytes (dict_set k (v, cb) d).
Proof.
  unfold table_fits_bytes. intros Hfit Hk Hv.
  induction d as [| [k' e] d IH]; cbn [dict_set].
  - constructor; [cbn [fst snd]; lia | constructor].
  - inversion Hfit as [| ? ? Hhead Htail]; subst.
    destruct (k =? k'); constructor; auto; cbn [fst snd]; lia.
Qed.

Lemma output_no_callback_attached
    (callback_body : Callback -> Z -> M unit) (pin value old : Z) (w : World) :
  pin_map_lock w = false -> sync_client_lock w = false ->
  simulatorConn w = true ->
  dict_get pin (pin_map w) = Some (old, None) ->
  GPIO_output callback_body pin value w
  = (Ok tt,
     log (EvRelease SyncClientLock)
       (log (EvAcquire SyncClientLock)
          (set_should_sync_field true
             (log (EvRelease PinMapLock)
                (log (EvTableWrite pin value None)
                   (log (EvTableRead pin)
                      (log (EvTableRead pin)
                         (log (EvAcquire PinMapLock)
                            (set_pin_map (dict_set pin (value, None) (pin_map w))
                                         w))))))))).
Proof.
  intros Hl Hsl Hconn Hget. unfold GPIO_output, bind.
  rewrite (critical_section_registered pin value old None w Hl Hget).
  unfold ret. apply signal_sync_attached; destruct w; assumption.
Qed.

(** What a turn of the loop does once the message is processed. *)
Lemma receive_turn_after_processing
    (callback_body : Callback -> Z -> M unit) (w : World) (sock : Socket)
    (chunk : list byte) (rest : list RecvOutcome) (w1 : World) :
  clientSocket w = Some sock ->
  incoming sock = RecvData chunk :: rest ->
  process_message callback_body chunk (after_recv sock rest w) = (Ok tt, w1) ->
  sync_client_lock w1 = false ->
  receive_turn callback_body w
  = try_socket_error
      (if should_sync w1 then sync_with_client else ret tt)
      (fun _ => ret tt)
      (log (EvRelease SyncClientLock) (log (EvAcquire SyncClientLock) w1)).
Proof.
  intros Hsock Hinc Hproc Hsl.
  unfold receive_turn, try_socket_error, bind.
  rewrite (socket_recv_data w sock chunk rest Hsock Hinc), Hproc.
  rewrite (should_sync_client_reads w1 Hsl). reflexivity.
Qed.

(** A well-formed set-pin message for a registered pin (here one without
    callback) is applied and echoed in the same turn of the loop: the
    value is stored, one snapshot holding the new value is sent, and the
    flag is clear again. *)
Theorem network_write_is_echoed
    (callback_body : Callback -> Z -> M unit) (w : World) (sock : Socket)
    (pin_byte value_byte : byte) (rest : list RecvOutcome) (old : Z) :
  clientSocket w = Some sock ->
  incoming sock = RecvData [x35; pin_byte; value_byte] :: rest ->
  send_errno sock = None ->
  pin_map_lock w = false -> sync_client_lock w = false ->
  simulatorConn w = true ->
  dict_get (byte_val pin_byte) (pin_map w) = Some (old, None) ->
  table_fits_bytes (pin_map w) ->
  exists msg w2,
    receive_turn callback_body w = (Ok tt, w2) /\
    pin_map w2 = dict_set (byte_val pin_byte) (byte_val value_byte, None) (pin_map w) /\
    fst (GPIO_input (byte_val pin_byte) w2) = Ok (Some (byte_val value_byte)) /\
    map byte_val msg = snapshot (pin_map w2) /\
    clientSocket w2 = Some (mkSocket rest (sent sock ++ [msg]) None) /\
    should_sync w2 = false.
Proof.
  intros Hsock Hinc Herr Hl Hsl Hconn Hget Hfit.
  set (d2 := dict_set (byte_val pin_byte) (byte_val value_byte, None) (pin_map w)).
  assert (Hfit2 : table_fits_bytes d2)
    by (apply fits_dict_set; [exact Hfit | apply byte_val_range_sim ..]).
  destruct (build_message_fits d2 Hfit2 []) as [msg [Hfold Hmsg]].
  cbn [app] in Hfold.
  pose proof (output_no_callback_attached callback_body (byte_val pin_byte)
                (byte_val value_byte) old (after_recv sock rest w)) as Hout.
  rewrite (receive_turn_after_processing callback_body w sock _ rest _ Hsock Hinc
             (Hout ltac:(destruct w; assumption) ltac:(destruct w; assumption)
                   ltac:(destruct w; assumption) ltac:(destruct w; assumption)))
    by (destruct w; assumption).
  clear Hout. unfold try_socket_error.
  destruct sock as [inc snt serr]. world_cbn. subst inc serr.
  destruct w as [pm pml sc cs lk scl ss rt tr]. world_cbn. subst.
  rewrite (sync_with_client_sends _ (mkSocket rest snt None) msg);
    [| reflexivity | reflexivity | reflexivity | reflexivity | exact Hfold].
  exists msg. eexists. split; [reflexivity |]. world_cbn.
  split; [reflexivity |].
  split; [rewrite input_returns_entry by reflexivity; world_cbn;
          fold d2; unfold d2; rewrite dict_get_set_same; reflexivity |].
  split; [exact Hmsg |]. split; reflexivity.
Qed.

Lemma network_write_is_echoed_witness :
  dict_get (byte_val x07) (pin_map (world_with_message [x35; x07; x00]))
  = Some (1, None) /\
  exists msg w2,
    receive_turn reading_callback (world_with_message [x35; x07; x00]) = (Ok tt, w2) /\
    map byte_val msg = [0x35; 5; 0; 0x35; 7; 0] /\
    should_sync w2 = false.
Proof.
  split; [reflexivity |].
  destruct (network_write_is_echoed reading_callback
              (world_with_message [x35; x07; x00])
              (mkSocket [RecvData [x35; x07; x00]] [] None) x07 x00 [] 1
              eq_refl eq_refl eq_refl eq_refl eq_refl eq_refl eq_refl
              connected_world_fits)
    as (msg & w2 & Hturn & Hpm & _ & Hmsg & _ & Hflag).
  exists msg, w2. split; [exact Hturn |]. split; [| exact Hflag].
  rewrite Hmsg, Hpm. reflexivity.
Defined.

(** ** No message can spoil the table *)

Lemma keeps_bytes_ret {A} (a : A) : keeps_bytes (ret a).
Proof. intros w H. exact H. Qed.

Lemma keeps_bytes_raise {A} (e : Exn) : keeps_bytes (@raise A e).
Proof. intros w H. exact H. Qed.

Lemma keeps_bytes_bind {A B} (c : M A) (k : A -> M B) :
  keeps_bytes c -> (forall a, keeps_bytes (k a)) -> keeps_bytes (bind c k).
Proof.
  intros Hc Hk w Hfit. unfold bind.
  specialize (Hc w Hfit). destruct (c w) as [[a | e |] w1]; cbn [snd] in *.
  - apply Hk. exact Hc.
  - exact Hc.
  - exact Hc.
Qed.

Lemma keeps_bytes_try {A} (body : M A) (handler : Z -> M A) :
  keeps_bytes body -> (forall errno, keeps_bytes (handler errno)) ->
  keeps_bytes (try_socket_error body handler).
Proof.
  intros Hb Hh w Hfit. unfold try_socket_error.
  specialize (Hb w Hfit). destruct (body w) as [[a | e |] w1]; cbn [snd] in *;
    try exact Hb.
  destruct e; try exact Hb. apply Hh. exact Hb.
Qed.

(** A critical section whose body leaves the table alone does so too. *)
Lemma with_lock_same_table {A} (l : LockId) (body : M A) :
  (forall w, pin_map (snd (body w)) = pin_map w) ->
  forall w, pin_map (snd (with_lock l body w)) = pin_map w.
Proof.
  intros Hbody w. unfold with_lock.
  destruct (held l w); [reflexivity |].
  specialize (Hbody (acquired l w)).
  destruct (body (acquired l w)) as [[a | e |] w1]; cbn [snd] in *;
    destruct w, w1, l; world_cbn; exact Hbody.
Qed.

Lemma same_table_keeps_bytes {A} (c : M A) :
  (forall w, pin_map (snd (c w)) = pin_map w) -> keeps_bytes c.
Proof. intros H w Hfit. rewrite H. exact Hfit. Qed.

Lemma socket_recv_same_table (w : World) :
  pin_map (snd (socket_recv w)) = pin_map w.
Proof.
  unfold socket_recv. destruct w as [pm pml sc cs lk scl ss rt tr]. world_cbn.
  destruct cs as [[inc snt serr] |]; [| reflexivity]. world_cbn.
  destruct inc as [| [chunk | errno] rest]; reflexivity.
Qed.

Lemma socket_send_same_table (data : list byte) (w : World) :
  pin_map (snd (socket_send data w)) = pin_map w.
Proof.
  unfold socket_send. destruct w as [pm pml sc cs lk scl ss rt tr]. world_cbn.
  destruct cs as [[inc snt serr] |]; [| reflexivity]. world_cbn.
  destruct serr; reflexivity.
Qed.

Lemma set_should_sync_same_table (val : bool) (w : World) :
  pin_map (snd (set_should_sync val w)) = pin_map w.
Proof.
  apply with_lock_same_table. intros w0. destruct w0. reflexivity.
Qed.

Lemma bind_same_table {A B} (c : M A) (k : A -> M B) :
  (forall w, pin_map (snd (c w)) = pin_map w) ->
  (forall a w, pin_map (snd (k a w)) = pin_map w) ->
  forall w, pin_map (snd (bind c k w)) = pin_map w.
Proof.
  intros Hc Hk w. unfold bind. specialize (Hc w).
  destruct (c w) as [[a | e |] w1]; cbn [snd] in *; [rewrite Hk | |]; exact Hc.
Qed.

Lemma table_contains_same_table (pin : Z) (w : World) :
  pin_map (snd (table_contains pin w)) = pin_map w.
Proof. reflexivity. Qed.

Lemma table_get_same_table (pin : Z) (w : World) :
  pin_map (snd (table_get pin w)) = pin_map w.
Proof. unfold table_get. destruct (dict_get pin (pin_map w)); reflexivity. Qed.

Lemma table_items_same_table (w : World) :
  pin_map (snd (table_items w)) = pin_map w.
Proof. reflexivity. Qed.

Lemma sync_with_client_same_table (w : World) :
  pin_map (snd (sync_with_client w)) = pin_map w.
Proof.
  apply with_lock_same_table. clear w.
  apply bind_same_table; [exact table_items_same_table |].
  intros items. apply bind_same_table.
  - intros w. reflexivity.
  - intros send_b. apply bind_same_table; [apply socket_send_same_table |].
    intros _. apply set_should_sync_same_table.
Qed.

Lemma signal_sync_same_table (w : World) :
  pin_map (snd (signal_sync w)) = pin_map w.
Proof. apply signal_sync_keeps_table. Qed.

Lemma critical_section_keeps_bytes (pin value : Z) :
  0 <= pin < 256 -> 0 <= value < 256 ->
  keeps_bytes (output_critical_section pin value).
Proof.
  intros Hp Hv w Hfit. unfold output_critical_section.
  destruct w as [pm pml sc cs lk scl ss rt tr]. open_section.
  destruct pml; [exact Hfit |].
  destruct (dict_get pin pm) as [[old cb] |] eqn:E; world_simpl;
    try rewrite E; world_simpl; [| exact Hfit].
  apply fits_dict_set; assumption.
Qed.

Lemma output_keeps_bytes
    (callback_body : Callback -> Z -> M unit) (pin value : Z) :
  leaves_table callback_body ->
  0 <= pin < 256 -> 0 <= value < 256 ->
  keeps_bytes (GPIO_output callback_body pin value).
Proof.
  intros Hcb Hp Hv. unfold GPIO_output.
  apply keeps_bytes_bind; [apply critical_section_keeps_bytes; assumption |].
  intros cb. apply keeps_bytes_bind.
  - destruct cb as [c |]; [| apply keeps_bytes_ret].
    apply same_table_keeps_bytes. intros w. unfold call.
    rewrite Hcb. destruct w. reflexivity.
  - intros _. apply same_table_keeps_bytes. exact signal_sync_same_table.
Qed.

Lemma process_message_keeps_bytes
    (callback_body : Callback -> Z -> M unit) (chunk : list byte) :
  leaves_table callback_body ->
  keeps_bytes (process_message callback_body chunk).
Proof.
  intros Hcb. unfold process_message.
  destruct ((length chunk <? 1)%nat || (3 <? length chunk)%nat);
    [apply keeps_bytes_ret |].
  destruct (item chunk 0) as [cmd_num |]; [| apply keeps_bytes_raise].
  destruct (byte_val cmd_num =? 0x35).
  - destruct (item chunk 1) as [arg_1 |]; [| apply keeps_bytes_raise].
    destruct (item chunk 2) as [arg_2 |]; [| apply keeps_bytes_raise].
    apply output_keeps_bytes; [exact Hcb | apply byte_val_range_sim ..].
  - destruct (byte_val cmd_num =? 0x10); [| apply keeps_bytes_ret].
    apply same_table_keeps_bytes. exact sync_with_client_same_table.
Qed.

Lemma receive_turn_keeps_bytes (callback_body : Callback -> Z -> M unit) :
  leaves_table callback_body -> keeps_bytes (receive_turn callback_body).
Proof.
  intros Hcb. unfold receive_turn.
  apply keeps_bytes_try; [| intros errno; apply keeps_bytes_ret].
  apply keeps_bytes_bind;
    [apply same_table_keeps_bytes; exact socket_recv_same_table |].
  intros chunk. apply keeps_bytes_bind;
    [apply process_message_keeps_bytes; exact Hcb |].
  intros _. apply keeps_bytes_bind.
  - apply same_table_keeps_bytes. apply with_lock_same_table. reflexivity.
  - intros needs. destruct needs; [| apply keeps_bytes_ret].
    apply same_table_keeps_bytes. exact sync_with_client_same_table.
Qed.

(** As long as the callbacks leave the table alone, nothing a client sends
    can put a pin id or a value that is no byte into the table: a table
    that a full sync can serialise stays so through any number of turns of
    the receive loop, whatever arrives and whatever fails. *)
Theorem receive_loop_keeps_bytes
    (callback_body : Callback -> Z -> M unit) (turns : nat) :
  leaves_table callback_body ->
  keeps_bytes (receive_loop callback_body turns).
Proof.
  intros Hcb. induction turns as [| turns IH]; cbn [receive_loop].
  - apply keeps_bytes_ret.
  - apply keeps_bytes_bind.
    + apply same_table_keeps_bytes. apply with_lock_same_table. reflexivity.
    + intros go. destruct go; [| apply keeps_bytes_ret].
      apply keeps_bytes_bind; [apply receive_turn_keeps_bytes; exact Hcb |].
      intros _. exact IH.
Qed.

Lemma reading_callback_leaves_table : leaves_table reading_callback.
Proof.
  intros c pin w. unfold reading_callback.
  apply bind_same_table; [| intros a w0; reflexivity].
  clear w. unfold GPIO_input. apply with_lock_same_table.
  apply bind_same_table; [exact (table_contains_same_table pin) |].
  intros present. destruct present; [| intros w; reflexivity].
  apply bind_same_table; [exact (table_get_same_table pin) |].
  intros entry w. reflexivity.
Defined.

Lemma receive_loop_keeps_bytes_witness :
  leaves_table reading_callback /\
  table_fits_bytes
    (pin_map (snd (receive_loop reading_callback 3
                     (world_with_message [x35; x07; xff])))).
Proof.
  split; [exact reading_callback_leaves_table |].
  exact (receive_loop_keeps_bytes reading_callback 3 reading_callback_leaves_table
           (world_with_message [x35; x07; xff]) connected_world_fits).
Defined.

(** ** Socket errors in a turn of the loop *)

Lemma socket_recv_error (w : World) (sock : Socket)
    (errno : Z) (rest : list RecvOutcome) :
  clientSocket w = Some sock -> incoming sock = RecvError errno :: rest ->
  socket_recv w = (Raise (SocketError errno), after_recv sock rest w).
Proof.
  intros Hsock Hinc. unfold socket_recv. rewrite Hsock, Hinc. reflexivity.
Qed.

(** No socket error ends the loop.  A failed [recv], whatever its errno,
    ends the turn with the table, the flag and the sent data as they
    were.  A push that fails in [send] ends the turn too, with the
    pin-table lock free and the sync still owed, so that it is tried again
    after the next message. *)
Theorem receive_turn_survives_socket_errors
    (callback_body : Callback -> Z -> M unit) (w : World) (sock : Socket) :
  clientSocket w = Some sock ->
  (forall errno rest,
     incoming sock = RecvError errno :: rest ->
     receive_turn callback_body w = (Ok tt, after_recv sock rest w) /\
     pin_map (after_recv sock rest w) = pin_map w /\
     should_sync (after_recv sock rest w) = should_sync w /\
     clientSocket (after_recv sock rest w)
     = Some (mkSocket rest (sent sock) (send_errno sock))) /\
  (forall chunk rest w1 sock1 errno,
     incoming sock = RecvData chunk :: rest ->
     process_message callback_body chunk (after_recv sock rest w) = (Ok tt, w1) ->
     should_sync w1 = true ->
     pin_map_lock w1 = false -> sync_client_lock w1 = false ->
     clientSocket w1 = Some sock1 -> send_errno sock1 = Some errno ->
     table_fits_bytes (pin_map w1) ->
     exists w2,
       receive_turn callback_body w = (Ok tt, w2) /\
       should_sync w2 = true /\
       pin_map_lock w2 = false /\
       clientSocket w2 = Some sock1 /\
       pin_map w2 = pin_map w1).
Proof.
  intros Hsock. split.
  - intros errno rest Hinc. split.
    + unfold receive_turn, try_socket_error, bind at 1.
      rewrite (socket_recv_error w sock errno rest Hsock Hinc). reflexivity.
    + destruct w. repeat split.
  - intros chunk rest w1 sock1 errno Hinc Hproc Hflag Hl Hsl Hsock1 Herr Hfit.
    destruct (build_message_fits (pin_map w1) Hfit []) as [msg [Hfold _]].
    cbn [app] in Hfold.
    rewrite (receive_turn_after_processing callback_body w sock chunk rest w1
               Hsock Hinc Hproc Hsl).
    rewrite Hflag. unfold try_socket_error.
    rewrite (sync_with_client_send_fails _ msg sock1 errno);
      try (destruct w1; assumption).
    eexists. split; [reflexivity |].
    destruct w1. world_cbn. repeat split; assumption.
Qed.

Lemma receive_turn_survives_socket_errors_witness :
  clientSocket (set_clientSocket (Some (mkSocket [RecvError 104] [] None))
                                 connected_world)
  = Some (mkSocket [RecvError 104] [] None) /\
  receive_turn reading_callback
    (set_clientSocket (Some (mkSocket [RecvError 104] [] None)) connected_world)
  = (Ok tt,
     after_recv (mkSocket [RecvError 104] [] None) []
       (set_clientSocket (Some (mkSocket [RecvError 104] [] None)) connected_world)).
Proof.
  split; [reflexivity |].
  exact (proj1 (proj1 (receive_turn_survives_socket_errors reading_callback
                         (set_clientSocket (Some (mkSocket [RecvError 104] [] None))
                                           connected_world)
                         (mkSocket [RecvError 104] [] None) eq_refl)
                  104 [] eq_refl)).
Defined.

(** ** The loop as a whole *)

(** A set-pin message that lacks a byte ends the receive loop for good:
    the IndexError leaves the loop, whatever number of turns were still to
    come, and what the client sent after it is never read. *)
Theorem receive_loop_ends_on_short_message
    (callback_body : Callback -> Z -> M unit) (turns : nat)
    (w : World) (sock : Socket) (pin_byte : byte) (rest : list RecvOutcome) :
  lock w = false -> run_thread w = true ->
  clientSocket w = Some sock ->
  incoming sock = RecvData [x35; pin_byte] :: rest ->
  exists w',
    receive_loop callback_body (S turns) w = (Raise IndexError, w') /\
    clientSocket w' = Some (mkSocket rest (sent sock) (send_errno sock)) /\
    pin_map w' = pin_map w.
Proof.
  intros Hlk Hrun Hsock Hinc.
  cbn [receive_loop]. unfold bind at 1.
  rewrite (can_run_thread_reads w Hlk), Hrun.
  unfold bind at 1.
  unfold receive_turn, try_socket_error, bind.
  rewrite (socket_recv_data _ sock [x35; pin_byte] rest)
    by (destruct w; assumption).
  change (process_message callback_body [x35; pin_byte])
    with (@raise unit IndexError).
  unfold raise. eexists. split; [reflexivity |].
  destruct w. world_cbn. split; reflexivity.
Qed.

Lemma receive_loop_ends_on_short_message_witness :
  run_thread (world_with_message [x35; x05]) = true /\
  exists w',
    receive_loop reading_callback 4 (world_with_message [x35; x05])
    = (Raise IndexError, w').
Proof.
  split; [reflexivity |].
  destruct (receive_loop_ends_on_short_message reading_callback 3
              (world_with_message [x35; x05])
              (mkSocket [RecvData [x35; x05]] [] None) x05 []
              eq_refl eq_refl eq_refl eq_refl) as (w' & Hloop & _).
  exists w'. exact Hloop.
Defined.

(** While the client stays silent the loop sends nothing, however many
    turns it makes: a sync that is owed stays owed.  Once [run_thread] is
    cleared the loop returns without a further [recv]. *)
Theorem receive_loop_idle
    (callback_body : Callback -> Z -> M unit) (turns : nat) :
  forall (w : World) (sock : Socket),
    lock w = false ->
    clientSocket w = Some sock ->
    (run_thread w = true -> incoming sock = [] ->
       exists w',
         receive_loop callback_body turns w = (Ok tt, w') /\
         clientSocket w' = Some sock /\
         should_sync w' = should_sync w /\
         pin_map w' = pin_map w) /\
    (run_thread w = false ->
       receive_loop callback_body (S turns) w
       = (Ok tt, log (EvRelease ConnLock) (log (EvAcquire ConnLock) w))).
Proof.
  induction turns as [| turns IH]; intros w sock Hlk Hsock; split.
  - intros _ _. exists w. repeat split. exact Hsock.
  - intros Hrun. cbn [receive_loop]. unfold bind.
    rewrite (can_run_thread_reads w Hlk), Hrun. reflexivity.
  - intros Hrun Hinc. cbn [receive_loop]. unfold bind at 1.
    rewrite (can_run_thread_reads w Hlk), Hrun.
    unfold bind at 1.
    rewrite (receive_turn_no_data callback_body _ sock)
      by (destruct w; assumption).
    set (w1 := log EvRecv (log (EvRelease ConnLock) (log (EvAcquire ConnLock) w))).
    destruct (IH w1 sock) as [Hidle _];
      [subst w1; destruct w; exact Hlk | subst w1; destruct w; exact Hsock |].
    destruct Hidle as (w' & Hloop & Hs & Hf & Hp);
      [subst w1; destruct w; exact Hrun | exact Hinc |].
    exists w'. split; [exact Hloop |]. split; [exact Hs |].
    subst w1. destruct w. world_cbn. split; assumption.
  - intros Hrun. cbn [receive_loop]. unfold bind at 1.
    rewrite (can_run_thread_reads w Hlk), Hrun. reflexivity.
Qed.

Lemma receive_loop_idle_witness :
  should_sync connected_world = true /\
  exists w',
    receive_loop reading_callback 5 connected_world = (Ok tt, w') /\
    clientSocket w' = Some (mkSocket [] [] None) /\
    should_sync w' = true.
Proof.
  split; [reflexivity |].
  destruct (proj1 (receive_loop_idle reading_callback 5 connected_world
                     (mkSocket [] [] None) eq_refl eq_refl) eq_refl eq_refl)
    as (w' & Hloop & Hsock & Hflag & _).
  exists w'. split; [exact Hloop |]. split; [exact Hsock | exact Hflag].
Defined.

(** ** Any sequence of calls *)

Lemma keeps_ret (P : World -> Prop) {A} (a : A) : keeps P (ret a).
Proof. intros w H. split; [exact H | discriminate]. Qed.

Lemma keeps_raise (P : World -> Prop) {A} (e : Exn) : keeps P (@raise A e).
Proof. intros w H. split; [exact H | discriminate]. Qed.

Lemma keeps_bind (P : World -> Prop) {A B} (c : M A) (k : A -> M B) :
  keeps P c -> (forall a, keeps P (k a)) -> keeps P (bind c k).
Proof.
  intros Hc Hk w Hw. unfold bind.
  destruct (Hc w Hw) as [Hw1 Hnb].
  destruct (c w) as [[a | e |] w1]; cbn [fst snd] in *.
  - apply Hk. exact Hw1.
  - split; [exact Hw1 | discriminate].
  - congruence.
Qed.

Lemma keeps_try (P : World -> Prop) {A} (body : M A) (handler : Z -> M A) :
  keeps P body -> (forall errno, keeps P (handler errno)) ->
  keeps P (try_socket_error body handler).
Proof.
  intros Hb Hh w Hw. unfold try_socket_error.
  destruct (Hb w Hw) as [Hw1 Hnb].
  destruct (body w) as [[a | e |] w1]; cbn [fst snd] in *.
  - split; [exact Hw1 | discriminate].
  - destruct e; try (split; [exact Hw1 | discriminate]).
    apply Hh. exact Hw1.
  - congruence.
Qed.

(** A critical section on the pin table. *)
Lemma keeps_with_pin_lock {A} (body : M A) :
  keeps inside_lock (fun w => body (log (EvAcquire PinMapLock) w)) ->
  keeps tidy_world (with_lock PinMapLock body).
Proof.
  intros Hbody w (Hl & Hsl & Hnd). unfold with_lock. cbn [held]. rewrite Hl.
  destruct (Hbody (set_held PinMapLock true w)) as [Hin Hnb].
  { destruct w. world_cbn. repeat split; assumption. }
  unfold acquired.
  destruct (body (log (EvAcquire PinMapLock) (set_held PinMapLock true w)))
    as [[a | e |] w1]; cbn [fst snd] in *; try congruence;
    (split; [| discriminate]);
    destruct Hin as (H1 & H2 & H3); destruct w1; world_cbn;
    repeat split; assumption.
Qed.

(** The flag is read and written under its own lock, inside or outside
    the critical section on the table. *)
Lemma keeps_flag_section (P : World -> Prop) {A} (body : M A) :
  (forall w, P w -> sync_client_lock w = false) ->
  (forall w, P w -> P (released SyncClientLock (snd (body (acquired SyncClientLock w)))) /\
                    fst (body (acquired SyncClientLock w)) <> Blocked) ->
  keeps P (with_lock SyncClientLock body).
Proof.
  intros Hfree Hbody w Hw. unfold with_lock. cbn [held].
  rewrite (Hfree w Hw). destruct (Hbody w Hw) as [Hw1 Hnb].
  destruct (body (acquired SyncClientLock w)) as [[a | e |] w1];
    cbn [fst snd] in *; try congruence; split; try exact Hw1; discriminate.
Qed.

Lemma keeps_set_should_sync_tidy (val : bool) :
  keeps tidy_world (set_should_sync val).
Proof.
  apply keeps_flag_section.
  - intros w (_ & H & _). exact H.
  - intros w (Hl & Hsl & Hnd). split; [| discriminate].
    destruct w. world_cbn. repeat split; assumption.
Qed.

Lemma keeps_set_should_sync_inside (val : bool) :
  keeps inside_lock (set_should_sync val).
Proof.
  apply keeps_flag_section.
  - intros w (_ & H & _). exact H.
  - intros w (Hl & Hsl & Hnd). split; [| discriminate].
    destruct w. world_cbn. repeat split; assumption.
Qed.

Lemma keeps_should_sync_client : keeps tidy_world should_sync_client.
Proof.
  apply keeps_flag_section.
  - intros w (_ & H & _). exact H.
  - intros w (Hl & Hsl & Hnd). split; [| discriminate].
    destruct w. world_cbn. repeat split; assumption.
Qed.

Lemma keeps_signal_sync : keeps tidy_world signal_sync.
Proof.
  intros w Hw. unfold signal_sync.
  destruct (simulatorConn w); [apply keeps_set_should_sync_tidy; exact Hw |].
  split; [exact Hw | discriminate].
Qed.

Lemma inside_lock_log (e : Event) (w : World) :
  inside_lock w -> inside_lock (log e w).
Proof. intros (H1 & H2 & H3). destruct w. repeat split; assumption. Qed.

Lemma keeps_section {A} (body : M A) :
  keeps inside_lock body -> keeps tidy_world (with_lock PinMapLock body).
Proof.
  intros H. apply keeps_with_pin_lock. intros w Hw.
  apply H. apply inside_lock_log. exact Hw.
Qed.

Lemma keeps_table_contains (pin : Z) : keeps inside_lock (table_contains pin).
Proof.
  intros w Hw. unfold table_contains. cbn [fst snd].
  split; [apply inside_lock_log; exact Hw | discriminate].
Qed.

Lemma keeps_table_get (pin : Z) : keeps inside_lock (table_get pin).
Proof.
  intros w Hw. unfold table_get.
  destruct (dict_get pin (pin_map w)); cbn [fst snd];
    (split; [apply inside_lock_log; exact Hw | discriminate]).
Qed.

Lemma keeps_table_set (pin : Z) (entry : Z * option Callback) :
  keeps inside_lock (table_set pin entry).
Proof.
  intros w (Hl & Hsl & Hnd). unfold table_set. cbn [fst snd].
  split; [| discriminate]. apply inside_lock_log.
  destruct w. world_cbn. repeat split; try assumption.
  apply dict_set_keeps_nodup. exact Hnd.
Qed.

Lemma keeps_table_items : keeps inside_lock table_items.
Proof.
  intros w Hw. unfold table_items. cbn [fst snd].
  split; [apply inside_lock_log; exact Hw | discriminate].
Qed.

Lemma keeps_setup (pin dir : Z) : keeps tidy_world (GPIO_setup pin dir).
Proof. apply keeps_section. apply keeps_table_set. Qed.

Lemma keeps_input (pin : Z) : keeps tidy_world (GPIO_input pin).
Proof.
  apply keeps_section. apply keeps_bind; [apply keeps_table_contains |].
  intros present. destruct present; [| apply keeps_ret].
  apply keeps_bind; [apply keeps_table_get | intros entry; apply keeps_ret].
Qed.

Lemma keeps_add_event_detect
    (pin rf_type bouncetime : Z) (callback : option Callback) :
  keeps tidy_world (GPIO_add_event_detect pin rf_type callback bouncetime).
Proof.
  apply keeps_section. apply keeps_bind; [apply keeps_table_get |].
  intros entry. apply keeps_table_set.
Qed.

Lemma keeps_critical_section (pin value : Z) :
  keeps tidy_world (output_critical_section pin value).
Proof.
  apply keeps_section. apply keeps_bind; [apply keeps_table_contains |].
  intros present. destruct present; [| apply keeps_ret].
  apply keeps_bind; [apply keeps_table_get |].
  intros entry. apply keeps_bind; [apply keeps_table_set |].
  intros _. apply keeps_ret.
Qed.

Lemma keeps_sync_with_client : keeps tidy_world sync_with_client.
Proof.
  apply keeps_section. apply keeps_bind; [apply keeps_table_items |].
  intros items. apply keeps_bind.
  - intros w Hw. unfold build_send_b. split; [exact Hw |]. cbn [fst].
    destruct (build_message_cases items []) as [[_ [msg E]] | [_ E]];
      rewrite E; discriminate.
  - intros send_b. apply keeps_bind; [| intros _; apply keeps_set_should_sync_inside].
    intros w (Hl & Hsl & Hnd). unfold socket_send.
    destruct w as [pm pml sc cs lk scl ss rt tr]. world_cbn.
    destruct cs as [[inc snt serr] |]; world_cbn;
      [destruct serr |]; world_cbn;
      (split; [repeat split; assumption | discriminate]).
Qed.

Lemma keeps_socket_recv : keeps tidy_world socket_recv.
Proof.
  intros w (Hl & Hsl & Hnd). unfold socket_recv.
  destruct w as [pm pml sc cs lk scl ss rt tr]. world_cbn.
  destruct cs as [[inc snt serr] |]; world_cbn;
    [destruct inc as [| [chunk | errno] rest] |]; world_cbn;
    (split; [repeat split; assumption | discriminate]).
Qed.

Section TidyCallbacks.

Variable callback_body : Callback -> Z -> M unit.
Hypothesis callbacks_tidy : forall c pin, keeps tidy_world (callback_body c pin).

Lemma keeps_output (pin value : Z) :
  keeps tidy_world (GPIO_output callback_body pin value).
Proof.
  unfold GPIO_output.
  apply keeps_bind; [apply keeps_critical_section |].
  intros cb. apply keeps_bind; [| intros _; apply keeps_signal_sync].
  destruct cb as [c |]; [| apply keeps_ret].
  intros w (Hl & Hsl & Hnd). unfold call. apply callbacks_tidy.
  destruct w. world_cbn. repeat split; assumption.
Qed.

Lemma keeps_process_message (chunk : list byte) :
  keeps tidy_world (process_message callback_body chunk).
Proof.
  unfold process_message.
  destruct ((length chunk <? 1)%nat || (3 <? length chunk)%nat);
    [apply keeps_ret |].
  destruct (item chunk 0) as [cmd_num |]; [| apply keeps_raise].
  destruct (byte_val cmd_num =? 0x35).
  - destruct (item chunk 1) as [arg_1 |]; [| apply keeps_raise].
    destruct (item chunk 2) as [arg_2 |]; [| apply keeps_raise].
    apply keeps_output.
  - destruct (byte_val cmd_num =? 0x10); [apply keeps_sync_with_client |].
    apply keeps_ret.
Qed.

Lemma keeps_receive_turn : keeps tidy_world (receive_turn callback_body).
Proof.
  unfold receive_turn.
  apply keeps_try; [| intros errno; apply keeps_ret].
  apply keeps_bind; [apply keeps_socket_recv |].
  intros chunk. apply keeps_bind; [apply keeps_process_message |].
  intros _. apply keeps_bind; [apply keeps_should_sync_client |].
  intros needs. destruct needs; [apply keeps_sync_with_client | apply keeps_ret].
Qed.

Lemma keeps_run_call (c : Call) : keeps tidy_world (run_call callback_body c).
Proof.
  destruct c; cbn [run_call].
  - apply keeps_setup.
  - apply keeps_add_event_detect.
  - apply keeps_bind; [apply keeps_input | intros _; apply keeps_ret].
  - apply keeps_output.
  - apply keeps_sync_with_client.
  - apply keeps_process_message.
  - apply keeps_receive_turn.
Qed.

End TidyCallbacks.

(** Whatever the two threads call, in whatever order, and whatever
    exceptions are raised on the way, as long as the callbacks behave the
    same way: after every call the pin-table lock and the lock of the flag
    are free again, no pin id appears twice in the table, and no call
    waits for ever on a lock. *)
Theorem calls_leave_locks_free_and_pins_unique
    (callback_body : Callback -> Z -> M unit) :
  (forall c pin, keeps tidy_world (callback_body c pin)) ->
  forall calls w,
    tidy_world w ->
    tidy_world (snd (run_calls callback_body calls w)) /\
    Forall (fun r => r <> Blocked) (fst (run_calls callback_body calls w)).
Proof.
  intros Hcb calls. induction calls as [| c rest IH]; intros w Hw.
  - split; [exact Hw | constructor].
  - cbn [run_calls].
    destruct (keeps_run_call callback_body Hcb c w Hw) as [Hw1 Hnb].
    destruct (run_call callback_body c w) as [r w1]. cbn [fst snd] in *.
    destruct (IH w1 Hw1) as [Hw2 Hall].
    destruct (run_calls callback_body rest w1) as [rs w2]. cbn [fst snd] in *.
    split; [exact Hw2 | constructor; assumption].
Qed.

Lemma reading_callback_tidy (c : Callback) (pin : Z) :
  keeps tidy_world (reading_callback c pin).
Proof.
  unfold reading_callback.
  apply keeps_bind; [apply keeps_input | intros _; apply keeps_ret].
Defined.

Lemma fresh_world_tidy : tidy_world fresh_world.
Proof. repeat split. constructor. Defined.

Lemma calls_leave_locks_free_and_pins_unique_witness :
  (forall c pin, keeps tidy_world (reading_callback c pin)) /\
  tidy_world fresh_world /\
  tidy_world
    (snd (run_calls reading_callback
            [CallSetup 5 1; CallAddEventDetect 9 1 (Some 1%nat) 200;
             CallSetup 5 1; CallOutput 5 300; CallSync; CallMessage [x35; x05]]
            fresh_world)).
Proof.
  split; [exact reading_callback_tidy |]. split; [exact fresh_world_tidy |].
  exact (proj1 (calls_leave_locks_free_and_pins_unique reading_callback
                  reading_callback_tidy _ fresh_world fresh_world_tidy)).
Defined.

End SimulatorMore.

(** * Facts about the table of desks *)
Module DeskFacts.
Import DeskPinTable.

Section DeskLemmas.

Variable DeskId : Type.
Variable id_eqb : DeskId -> DeskId -> bool.
Variable Name : Type.
Variable Desk : Type.
Variable Desk_new : Name -> DeskId -> Desk.
Variable Env : Type.
Variable input_received : Desk -> bool -> Env -> Env.
Variable Bus : Type.
Variable read_raw_data : Z * Z -> Bus -> (Z * list byte) * Bus.


Lemma load_appends
    (all_desks : list (DeskConfig DeskId Name)) (mapping : list (Entry DeskId Desk)) :
  __load_desk_dictionary Desk_new all_desks mapping
  = mapping ++ map (entry_for Desk_new) all_desks.
Proof.
  unfold __load_desk_dictionary. revert mapping.
  induction all_desks as [| d ds IH]; intros mapping; cbn [fold_left map].
  - rewrite app_nil_r. reflexivity.
  - rewrite IH, <- app_assoc. reflexivity.
Qed.

Lemma lookup_app (desk_id : DeskId) (m1 m2 : list (Entry DeskId Desk)) :
  get_mapping_from_desk_id id_eqb desk_id (m1 ++ m2)
  = match get_mapping_from_desk_id id_eqb desk_id m1 with
    | Some found => Some found
    | None => get_mapping_from_desk_id id_eqb desk_id m2
    end.
Proof.
  unfold get_mapping_from_desk_id.
  induction m1 as [| [[d_id pin] d_obj] m1 IH]; cbn [app find fst].
  - reflexivity.
  - destruct (id_eqb d_id desk_id); [reflexivity | exact IH].
Qed.

(** Looking a desk up returns the sensor and the desk object of the first
    entry whose id equals the one asked for, and [None] exactly when no
    entry has that id. *)
Theorem get_mapping_returns_first_match
    (desk_id : DeskId) (mapping : list (Entry DeskId Desk)) :
  match get_mapping_from_desk_id id_eqb desk_id mapping with
  | Some (pin, d_obj) =>
      exists before d_id after,
        mapping = before ++ (d_id, pin, d_obj) :: after /\
        id_eqb d_id desk_id = true /\
        forall entry, In entry before -> id_eqb (fst (fst entry)) desk_id = false
  | None =>
      forall entry, In entry mapping -> id_eqb (fst (fst entry)) desk_id = false
  end.
Proof.
  unfold get_mapping_from_desk_id.
  induction mapping as [| [[d_id pin] d_obj] mapping IH]; cbn [find fst].
  - intros entry [].
  - destruct (id_eqb d_id desk_id) eqn:E.
    + exists [], d_id, mapping. repeat split; [exact E | intros entry []].
    + destruct (find (fun entry => id_eqb (fst (fst entry)) desk_id) mapping)
        as [[[d_id' pin'] d_obj'] |].
      * destruct IH as (before & i & after & Hm & Hi & Hbefore).
        exists ((d_id, pin, d_obj) :: before), i, after.
        split; [rewrite Hm; reflexivity |]. split; [exact Hi |].
        intros entry [<- | Hin]; [exact E | apply Hbefore; exact Hin].
      * intros entry [<- | Hin]; [exact E | apply IH; exact Hin].
Qed.

(** Loading the configuration into an empty table and looking an id up
    gives the sensor address and the desk built from the first configured
    desk with that id, and nothing when no desk is configured with it. *)
Theorem lookup_after_load
    (all_desks : list (DeskConfig DeskId Name)) (desk_id : DeskId) :
  get_mapping_from_desk_id id_eqb desk_id
    (__load_desk_dictionary Desk_new all_desks (@nil (Entry DeskId Desk)))
  = match find (fun d => id_eqb (id d) desk_id) all_desks with
    | Some d =>
        Some ((i2c_bus (sensor d), i2c_address (sensor d)),
              Desk_new (name d) (id d))
    | None => None
    end.
Proof.
  rewrite load_appends. cbn [app]. unfold get_mapping_from_desk_id.
  induction all_desks as [| d ds IH]; cbn [map find].
  - reflexivity.
  - unfold entry_for at 1. cbn [fst].
    destruct (id_eqb (id d) desk_id); [reflexivity | exact IH].
Qed.

(** The table is shared by all instances: building a second
    [DeskPinTable] appends the configured desks once more.  What an id is
    mapped to does not change by that, but the table grows by the number of
    configured desks each time. *)
Theorem second_instance_appends_again
    (all_desks : list (DeskConfig DeskId Name)) (mapping : list (Entry DeskId Desk)) :
  __load_desk_dictionary Desk_new all_desks mapping
  = mapping ++ __load_desk_dictionary Desk_new all_desks [] /\
  length (__load_desk_dictionary Desk_new all_desks mapping)
  = (length mapping + length all_desks)%nat /\
  (forall desk_id found,
     get_mapping_from_desk_id id_eqb desk_id mapping = Some found ->
     get_mapping_from_desk_id id_eqb desk_id
       (__load_desk_dictionary Desk_new all_desks mapping) = Some found) /\
  (forall desk_id,
     get_mapping_from_desk_id id_eqb desk_id
       (__load_desk_dictionary Desk_new all_desks
          (__load_desk_dictionary Desk_new all_desks []))
     = get_mapping_from_desk_id id_eqb desk_id
         (__load_desk_dictionary Desk_new all_desks [])).
Proof.
  split; [rewrite (load_appends all_desks mapping), (load_appends all_desks []);
          reflexivity |].
  split; [rewrite load_appends, length_app, length_map; reflexivity |].
  split.
  - intros desk_id found Hfound.
    rewrite load_appends, lookup_app, Hfound. reflexivity.
  - intros desk_id.
    rewrite (load_appends all_desks (__load_desk_dictionary Desk_new all_desks [])).
    rewrite lookup_app. rewrite (load_appends all_desks []). cbn [app].
    destruct (get_mapping_from_desk_id id_eqb desk_id
                (map (entry_for Desk_new) all_desks)); reflexivity.
Qed.

(** When no sensor answers with a full frame, a poll gives up on each
    sensor after [MAX_RETRIES] reads, raises nothing, and tells every desk
    of the table, once and in table order, that it is not occupied. *)
Theorem poll_loop_without_frames_reports_unoccupied
    (MAX_RETRIES : nat) (mapping : list (Entry DeskId Desk)) :
  (forall sensor_obj bus,
     fst (fst (read_raw_data sensor_obj bus)) <> OmronD6T.BUFFER_LENGTH) ->
  forall bus env,
    exists bus',
      poll_loop input_received read_raw_data MAX_RETRIES mapping bus env
      = (Ok tt,
         (bus',
          fold_left (fun e (entry : (Entry DeskId Desk)) => input_received (snd entry) false e)
                    mapping env)).
Proof.
  intros Hdead.
  assert (Hread : forall sensor_obj n bus,
            fst (OmronD6T.read_loop Bus (read_raw_data sensor_obj) n bus) = Ok None).
  { intros sensor_obj n. induction n as [| n IHn]; intros bus;
      cbn [OmronD6T.read_loop]; [reflexivity |].
    specialize (Hdead sensor_obj bus).
    destruct (read_raw_data sensor_obj bus) as [[bytes_read raw] bus1].
    cbn [fst] in Hdead. apply Z.eqb_neq in Hdead. rewrite Hdead. apply IHn. }
  induction mapping as [| [[d_id pin] d_obj] rest IH]; intros bus env;
    cbn [poll_loop fold_left snd].
  - exists bus. reflexivity.
  - unfold OmronD6T.occupied_status, OmronD6T.__read.
    specialize (Hread pin MAX_RETRIES bus).
    destruct (OmronD6T.read_loop Bus (read_raw_data pin) MAX_RETRIES bus)
      as [r bus1]. cbn [fst] in Hread. subst r.
    apply IH.
Qed.

End DeskLemmas.

Lemma poll_loop_without_frames_reports_unoccupied_witness :
  (forall sensor_obj bus,
     fst (fst (dead_read sensor_obj bus)) <> OmronD6T.BUFFER_LENGTH) /\
  exists bus',
    poll_loop (fun (desk : nat) status env => env ++ [(desk, status)]) dead_read 3
      [(1%nat, (1, 10), 11%nat); (2%nat, (1, 11), 12%nat)] O []
    = (Ok tt, (bus', [(11%nat, false); (12%nat, false)])).
Proof.
  assert (H : forall sensor_obj bus,
            fst (fst (dead_read sensor_obj bus)) <> OmronD6T.BUFFER_LENGTH)
    by (intros sensor_obj bus; discriminate).
  split; [exact H |].
  exact (poll_loop_without_frames_reports_unoccupied nat nat
           (list (nat * bool)) (fun desk status env => env ++ [(desk, status)])
           nat dead_read 3 [(1%nat, (1, 10), 11%nat); (2%nat, (1, 11), 12%nat)]
           H O []).
Defined.

Lemma second_instance_appends_again_witness :
  get_mapping_from_desk_id Nat.eqb 2%nat
    [(1%nat, (1, 10), 11%nat); (2%nat, (1, 11), 12%nat)] = Some ((1, 11), 12%nat) /\
  get_mapping_from_desk_id Nat.eqb 2%nat
    (__load_desk_dictionary (fun (name id : nat) => id)
       [mkDeskConfig nat nat 2%nat 0%nat (mkSensorConfig 1 99)]
       [(1%nat, (1, 10), 11%nat); (2%nat, (1, 11), 12%nat)])
  = Some ((1, 11), 12%nat).
Proof.
  split; [reflexivity |].
  exact (proj1 (proj2 (proj2
    (second_instance_appends_again nat Nat.eqb nat nat (fun name id => id)
       [mkDeskConfig nat nat 2%nat 0%nat (mkSensorConfig 1 99)]
       [(1%nat, (1, 10), 11%nat); (2%nat, (1, 11), 12%nat)])))
    2%nat ((1, 11), 12%nat) eq_refl).
Defined.

End DeskFacts.
